(** * rofi-bookmarks: a model of [rofi-bookmarks.py] and of what it prints

    The script reads Firefox' bookmark table from a temporary copy of
    [places.sqlite], rebuilds each bookmark's folder path by climbing the
    parent pointers, keeps the bookmarks below a requested folder and prints
    one rofi entry per bookmark.

    The embedding follows the script function by function.  Python values
    are modelled as follows:
    - [int] columns of the table are [Z]; nullable text columns are
      [option string] ([None] is Python's [None]);
    - a [dict] is a [gmap]; a list is a [list];
    - an exception is a value of [exn], carried by the [Raise] case of
      [result]; a loop that does not stop is the [OutOfFuel] case, reached
      for every amount of fuel;
    - the file system, the open database connections, standard output and
      the started processes are fields of [world], threaded by the [io]
      monad;
    - what the Python standard library computes from the bytes of a file
      ([ConfigParser.read], the SQL query) and [pathlib]'s [/] are fields of
      the class [Platform].

    [cache_icon] is called from nowhere and is left out.

    The script needs Python 3.10 or later (the annotation [Path | str] of
    [temp_sqlite] is evaluated when the function is defined), so PEP 479 is
    in force: a [StopIteration] that escapes a generator expression becomes
    a [RuntimeError]. *)

From Stdlib Require Import ZArith String Ascii List.
From stdpp Require Import gmap strings list.

(** ** Exceptions and results *)

Inductive exn : Type :=
  | KeyError
  | IndexError
  | RuntimeError
  | FileNotFoundError
  | LibraryError (what : string)
  | Exception (msg : string).

Inductive result (A : Type) : Type :=
  | Ok (a : A)
  | Raise (e : exn)
  | OutOfFuel.

Arguments Ok {A} a.
Arguments Raise {A} e.
Arguments OutOfFuel {A}.

Definition result_bind {A B} (f : A → result B) (r : result A) : result B :=
  match r with
  | Ok a => f a
  | Raise e => Raise e
  | OutOfFuel => OutOfFuel
  end.

#[global] Instance result_mbind : MBind result := @result_bind.
#[global] Instance result_mret : MRet result := @Ok.

(** ** Rows of the bookmark query

    One row of
    [SELECT b.id, b.parent, b.type, b.title, p.url FROM moz_bookmarks b
     LEFT JOIN moz_places p ON b.fk = p.id]. *)

Record row : Type := Row {
  row_id : Z;
  row_parent : Z;
  row_type : Z;
  row_title : option string;
  row_url : option string;
}.

(** [by_id = {i: (title, parent) for i, parent, _, title, _ in bookmarks}]:
    rows are entered in order, a later row replaces an earlier one with the
    same id. *)
Definition make_by_id (bookmarks : list row) : gmap Z (option string * Z) :=
  foldl (λ m r, <[row_id r := (row_title r, row_parent r)]> m) ∅ bookmarks.

(** ** The title renderers *)

(** [filter(lambda x: x is not None, path)] *)
Definition not_none (path : list (option string)) : list string :=
  omap id path.

(** [title_gen_full_path]: [separator.join(...)].  The separator comes
    first, as in [partial(title_gen_full_path, separator=...)]. *)
Definition title_gen_full_path (separator : string)
    (path : list (option string)) : result string :=
  Ok (String.concat separator (not_none path)).

(** [title_gen_only_name]: [list(...)[-1]], an [IndexError] on the empty
    list. *)
Definition title_gen_only_name (path : list (option string)) : result string :=
  match last (not_none path) with
  | Some t => Ok t
  | None => Raise IndexError
  end.

(** ** Climbing the parent pointers *)

(** [list(parent_generator(i, by_id))].  Each hop of the [while] loop uses
    one unit of fuel; [by_id[i]] raises [KeyError] on a missing key.  On a
    cycle the generator never stops and [list] never returns: no fuel is
    enough. *)
Fixpoint parent_generator (fuel : nat) (i : Z)
    (by_id : gmap Z (option string * Z)) : result (list (option string)) :=
  if bool_decide (1 < i)%Z then
    match fuel with
    | O => OutOfFuel
    | S fuel' =>
        match by_id !! i with
        | None => Raise KeyError
        | Some (title, i') =>
            rest ← parent_generator fuel' i' by_id;
            Ok (title :: rest)
        end
    end
  else Ok [].

(** ** The path filter

    [all(name == next(path_arr) for name in search_path)] on the one-pass
    iterator [path_arr].  The result carries what is left of the iterator.
    [all] stops at the first [False]; [next] on the exhausted iterator
    raises [StopIteration] inside the generator expression, which reaches
    the caller as [RuntimeError]. *)
Fixpoint all_names_match (search_path : list string)
    (path_arr : list (option string)) : result (bool * list (option string)) :=
  match search_path with
  | [] => Ok (true, path_arr)
  | name :: search_path' =>
      match path_arr with
      | [] => Raise RuntimeError
      | x :: path_arr' =>
          if bool_decide (Some name = x)
          then all_names_match search_path' path_arr'
          else Ok (false, path_arr')
      end
  end.

(** [f"{url}"] for a nullable column. *)
Definition str_of (url : option string) : string :=
  match url with
  | Some u => u
  | None => "None"
  end.

Definition NUL : string := String "000"%char EmptyString.
Definition US : string := String "031"%char EmptyString.

(** [f"{path}\x00info\x1f{url}"] *)
Definition entry_line (path : string) (url : option string) : string :=
  path +:+ NUL +:+ "info" +:+ US +:+ str_of url.

(** ** The world and the [io] monad *)

Definition Path : Type := string.

(** A database connection is a handle into the table of open connections. *)
Definition conn : Type := nat.

Record world : Type := World {
  files : gmap Path string;        (* the file system: path to content *)
  conns : gmap conn Path;          (* open connections and their file *)
  stdout : list string;            (* the texts given to [print], in order *)
  spawned : list (list string);    (* argument vectors of started processes *)
}.

Definition set_files (f : gmap Path string → gmap Path string) (w : world) : world :=
  World (f (files w)) (conns w) (stdout w) (spawned w).
Definition set_conns (f : gmap conn Path → gmap conn Path) (w : world) : world :=
  World (files w) (f (conns w)) (stdout w) (spawned w).
Definition set_stdout (f : list string → list string) (w : world) : world :=
  World (files w) (conns w) (f (stdout w)) (spawned w).
Definition set_spawned (f : list (list string) → list (list string)) (w : world) : world :=
  World (files w) (conns w) (stdout w) (f (spawned w)).

Definition io (A : Type) : Type := world → result A * world.

Definition io_bind {A B} (f : A → io B) (c : io A) : io B :=
  λ w, match c w with
       | (Ok a, w') => f a w'
       | (Raise e, w') => (Raise e, w')
       | (OutOfFuel, w') => (OutOfFuel, w')
       end.

Definition io_ret {A} (a : A) : io A := λ w, (Ok a, w).

#[global] Instance io_mbind : MBind io := @io_bind.
#[global] Instance io_mret : MRet io := @io_ret.

(** A pure computation run inside [io]. *)
Definition lift {A} (r : result A) : io A := λ w, (r, w).

(** [print(line)] *)
Definition print (line : string) : io unit :=
  λ w, (Ok (), set_stdout (λ out, out ++ [line]) w).

(** [for x in l: body(x)], left as soon as an iteration raises. *)
Fixpoint for_each {A} (body : A → io unit) (l : list A) : io unit :=
  match l with
  | [] => mret ()
  | x :: l' => body x;; for_each body l'
  end.

(** [with enter as x: body(x)].  The exit action runs when the body returns
    and when it raises, and the outcome of the body is the outcome of the
    block (none of the exit actions here swallows an exception); an error of
    the exit action itself replaces it.  Nothing runs after a body that does
    not return. *)
Definition with_ {A R} (enter : io A) (exit : A → io unit) (body : A → io R) : io R :=
  λ w, match enter w with
       | (Ok a, w1) =>
           match body a w1 with
           | (OutOfFuel, w2) => (OutOfFuel, w2)
           | (r, w2) =>
               match exit a w2 with
               | (Ok _, w3) => (r, w3)
               | (Raise e, w3) => (Raise e, w3)
               | (OutOfFuel, w3) => (OutOfFuel, w3)
               end
           end
       | (Raise e, w1) => (Raise e, w1)
       | (OutOfFuel, w1) => (OutOfFuel, w1)
       end.

(** A context manager is used by running a body inside it. *)
Definition context_manager (A : Type) : Type := ∀ R, (A → io R) → io R.

(** [NamedTemporaryFile()]: a new, empty file under a name no file has;
    leaving the block deletes it. *)
Definition tempfile_name (w : world) : Path := fresh (dom (files w)).

Definition NamedTemporaryFile_enter : io Path :=
  λ w, let name := tempfile_name w in
       (Ok name, set_files (insert name EmptyString) w).

Definition NamedTemporaryFile_exit (name : Path) : io unit :=
  λ w, (Ok (), set_files (delete name) w).

(** [copyfile(src, dst)]: copying a file onto itself is refused
    ([SameFileError]), a missing source is [FileNotFoundError]. *)
Definition copyfile (src dst : Path) : io unit :=
  λ w, match files w !! src with
       | None => (Raise FileNotFoundError, w)
       | Some content =>
           if bool_decide (src = dst)
           then (Raise (LibraryError "SameFileError"), w)
           else (Ok (), set_files (insert dst content) w)
       end.

(** [sqlite3.connect(name)] and [conn.close()], the pair that
    [closing(...)] brackets. *)
Definition connection_handle (w : world) : conn := fresh (dom (conns w)).

Definition sqlite3_connect (name : Path) : io conn :=
  λ w, let h := connection_handle w in
       (Ok h, set_conns (insert h name) w).

Definition close (h : conn) : io unit :=
  λ w, (Ok (), set_conns (delete h) w).

(** [temp_sqlite]: the generator under [@contextmanager], with the body of
    the caller's [with] block in the place of [yield conn]. *)
Definition temp_sqlite (path : Path) : context_manager conn :=
  λ R body,
    with_ NamedTemporaryFile_enter NamedTemporaryFile_exit (λ temp_loc,
      copyfile path temp_loc;;
      with_ (sqlite3_connect temp_loc) close body).

(** ** What the standard library makes of file contents *)

(** What [i[key]] gives for an option the section has.  [ConfigParser()]
    interpolates on every lookup: the result is the value after
    interpolation, or the error interpolation raises
    ([InterpolationSyntaxError] on a lone [%], [InterpolationMissingOptionError]
    on a reference to an option that is not there, ...). *)
Inductive lookup_outcome : Type :=
  | Interpolated (v : string)
  | InterpolationError (what : string).

(** A section of a parsed INI file as the script sees it through [i[key]]:
    the option names the section has (ConfigParser's case folding and its
    fallback to the DEFAULT section included), each with what its lookup
    gives; a missing name is a [KeyError]. *)
Definition section : Type := gmap string lookup_outcome.

Class Platform : Type := {
  (** [Path.home() / '.mozilla/firefox'] *)
  firefox_dir : Path;
  (** [pathlib]'s [a / b] *)
  joinpath : Path → string → Path;
  (** [ConfigParser.read] followed by [.values()] on the content of a file:
      the sections in order, or the parser's error *)
  ini_values : string → exn + list section;
  (** the bookmark query followed by [.fetchall()] on the content of a
      database file: the rows in order, or sqlite's error *)
  select_bookmarks : string → exn + list row;
}.

Section Script.
Context `{Platform}.

(** [cfg.read(path); cfg.values()]: a file that does not exist is skipped
    and leaves the DEFAULT section alone, with no option. *)
Definition ConfigParser_read_values (path : Path) : io (list section) :=
  λ w, match files w !! path with
       | None => (Ok [∅], w)
       | Some content =>
           match ini_values content with
           | inl e => (Raise e, w)
           | inr values => (Ok values, w)
           end
       end.

(** [places.execute(query).fetchall()] *)
Definition execute_fetchall (places : conn) : io (list row) :=
  λ w, match conns w !! places with
       | None => (Raise (LibraryError "ProgrammingError"), w)
       | Some name =>
           match files w !! name with
           | None => (Raise (LibraryError "OperationalError"), w)
           | Some content =>
               match select_bookmarks content with
               | inl e => (Raise e, w)
               | inr rows => (Ok rows, w)
               end
           end
       end.

(** [i[key]] on a section: [KeyError] when the section has no such option,
    otherwise the interpolated value, or the error of the interpolation,
    which is no [KeyError]. *)
Definition item (i : section) (key : string) : result string :=
  match i !! key with
  | Some (Interpolated v) => Ok v
  | Some (InterpolationError what) => Raise (LibraryError what)
  | None => Raise KeyError
  end.

(** [with suppress(KeyError): ...] around a block that may [return]:
    [Ok (Some v)] is [return v], [Ok None] is falling out of the block. *)
Definition suppress_KeyError {A} (r : result (option A)) : result (option A) :=
  match r with
  | Raise KeyError => Ok None
  | _ => r
  end.

(** [for i in l: <block>] followed by [<otherwise>], where the block may
    [return]. *)
Fixpoint for_return {A B} (block : A → result (option B)) (l : list A)
    (otherwise : result B) : result B :=
  match l with
  | [] => otherwise
  | i :: l' =>
      match block i with
      | Ok (Some b) => Ok b
      | Ok None => for_return block l' otherwise
      | Raise e => Raise e
      | OutOfFuel => OutOfFuel
      end
  end.

Definition default_profile_path : io Path :=
  installs ← ConfigParser_read_values (joinpath firefox_dir "installs.ini");
  lift (for_return
          (λ i, suppress_KeyError
                  (d ← item i "Default"; Ok (Some (joinpath firefox_dir d))))
          installs
          (Raise (Exception "could not find a default profile in installs.ini"))).

Definition path_from_name (name : string) : io Path :=
  profiles ← ConfigParser_read_values (joinpath firefox_dir "profiles.ini");
  lift (for_return
          (λ i, suppress_KeyError
                  (n ← item i "Name";
                   if bool_decide (n = name)
                   then p ← item i "Path"; Ok (Some (joinpath firefox_dir p))
                   else Ok None))
          profiles
          (Raise (Exception "no profile with this name"))).

Definition favicons_generator (profile_path : Path) : context_manager conn :=
  temp_sqlite (joinpath profile_path "favicons.sqlite").

Definition get_bookmarks_from_db (profile_loc : Path) : io (list row) :=
  temp_sqlite (joinpath profile_loc "places.sqlite") _ execute_fetchall.

End Script.

(** ** Writing the entries *)

(** One iteration of the [for] loop of [write_rofi_input]. *)
Definition write_rofi_input_row (fuel : nat) (by_id : gmap Z (option string * Z))
    (title_gen : list (option string) → result string)
    (search_path : list string) (r : row) : io unit :=
  if bool_decide (row_type r ≠ 1%Z) then mret ()   (* continue *)
  else
    parents ← lift (parent_generator fuel (row_id r) by_id);
    '(matched, path_arr) ← lift (all_names_match search_path (rev parents));
    if (matched : bool)
    then path ← lift (title_gen path_arr); print (entry_line path (row_url r))
    else mret ().

(** [favicons_gen] is received and never used. *)
Definition write_rofi_input (fuel : nat) (bookmarks : list row)
    (favicons_gen : context_manager conn)
    (title_gen : list (option string) → result string)
    (search_path : list string) : io unit :=
  let by_id := make_by_id bookmarks in
  for_each (write_rofi_input_row fuel by_id title_gen search_path) bookmarks.

(** ** The command line *)

(** [s.split(c)] *)
Fixpoint split (c : ascii) (s : string) : list string :=
  match s with
  | EmptyString => [EmptyString]
  | String a s' =>
      if Ascii.eqb a c then EmptyString :: split c s'
      else match split c s' with
           | [] => [String a EmptyString]
           | piece :: pieces => String a piece :: pieces
           end
  end.

(** The namespace [parse_known_args] returns. *)
Record Args : Type := MkArgs {
  args_path : string;
  args_separator : string;
  args_profile : option string;
}.

(** The text of the prompt line; the icon is given by its UTF-8 bytes. *)
Definition prompt_line : string :=
  NUL +:+ "prompt" +:+ US +:+
  String "195" (String "175" (String "226" (String "128"
    (String "176" (String "194" (String "169" " ")))))).

(** [subprocess.Popen(argv, ...)]: the process is started and not waited
    for. *)
Definition Popen (argv : list string) : io unit :=
  λ w, (Ok (), set_spawned (λ ps, ps ++ [argv]) w).

(** [environ[key]] *)
Definition environ_item (environ : gmap string string) (key : string) :
    result string :=
  match environ !! key with
  | Some v => Ok v
  | None => Raise KeyError
  end.

Section Main.
Context `{Platform}.

(** The block under [if __name__ == "__main__"], after argument parsing. *)
Definition main (fuel : nat) (args : Args) (environ : gmap string string) : io unit :=
  if bool_decide (environ !! "ROFI_RETV" = Some "1") then
    let prof := match args_profile args with
                | None => []
                | Some p => ["-P"; p]
                end in
    info ← lift (environ_item environ "ROFI_INFO");
    Popen (["firefox"; "-new-window"; info] ++ prof)
  else
    let search_path :=
      filter (λ i, i ≠ EmptyString) (split "/" (args_path args)) in
    profile_path ← match args_profile args with
                   | None => default_profile_path
                   | Some p => path_from_name p
                   end;
    print prompt_line;;
    bookmarks ← get_bookmarks_from_db profile_path;
    write_rofi_input fuel bookmarks (favicons_generator profile_path)
      title_gen_only_name search_path.

End Main.

(** * Vocabulary of the properties *)

(** The iteration of the loop of [write_rofi_input] for the row [r] of the
    table [bookmarks]. *)
Definition iteration (fuel : nat) (bookmarks : list row)
    (title_gen : list (option string) → result string)
    (search_path : list string) (r : row) : io unit :=
  write_rofi_input_row fuel (make_by_id bookmarks) title_gen search_path r.

(** Started in [w], the action [c] adds exactly [lines] to standard
    output. *)
Definition prints (c : io unit) (w : world) (lines : list string) : Prop :=
  stdout (c w).2 = stdout w ++ lines.

(** The row is included in the output: its iteration prints an entry. *)
Definition included (c : io unit) (w : world) : Prop :=
  ∃ line, prints c w [line].

(** [ids] are the ids the climb from [i] visits, [i] first: every one is
    above the root sentinel and is a key of [by_id], each is followed by its
    parent, and the parent of the last one is a sentinel ([<= 1]). *)
Inductive climbs (by_id : gmap Z (option string * Z)) : Z → list Z → Prop :=
  | climbs_sentinel i :
      (i ≤ 1)%Z → climbs by_id i []
  | climbs_hop i title parent ids :
      (1 < i)%Z → by_id !! i = Some (title, parent) →
      climbs by_id parent ids → climbs by_id i (i :: ids).

(** The title [by_id] records for an id. *)
Definition title_at (by_id : gmap Z (option string * Z)) (i : Z) : option string :=
  match by_id !! i with
  | Some (title, _) => title
  | None => None
  end.

(** The filter agrees with the path at every position of the filter. *)
Definition filter_matches (search_path : list string)
    (path : list (option string)) : Prop :=
  ∀ k name, search_path !! k = Some name → path !! k = Some (Some name).

(** A computation that no amount of fuel completes. *)
Definition diverges {A} (run : nat → result A) : Prop :=
  ∀ fuel, run fuel = OutOfFuel.

(** One hop of the climb: [i] is above the sentinel and [by_id] gives it the
    parent [j]. *)
Definition hop (by_id : gmap Z (option string * Z)) (i j : Z) : Prop :=
  (1 < i)%Z ∧ ∃ title, by_id !! i = Some (title, j).

(** The chain from [i] runs into a cycle: it reaches an id that is its own
    ancestor (for instance a row that is its own parent). *)
Definition runs_into_cycle (by_id : gmap Z (option string * Z)) (i : Z) : Prop :=
  ∃ j, rtc (hop by_id) i j ∧ tc (hop by_id) j j.

(** The chain from [i] dangles: it reaches an id above the sentinel that no
    row has. *)
Definition dangles (by_id : gmap Z (option string * Z)) (i : Z) : Prop :=
  ∃ j, rtc (hop by_id) i j ∧ (1 < j)%Z ∧ by_id !! j = None.

(** [search_path = [i for i in args.path.split('/') if i != '']], the
    filter [main] derives from the positional argument. *)
Definition search_path_of (path : string) : list string :=
  filter (λ i, i ≠ EmptyString) (split "/" path).

(** The string holds no slash. *)
Definition slash_free (s : string) : Prop :=
  ¬ In "/"%char (list_ascii_of_string s).

(** The hop bound a table allows: one more than the number of its ids. *)
Definition hop_bound (by_id : gmap Z (option string * Z)) : nat :=
  S (size by_id).

(** The title of a row under full-path rendering when the filter is empty:
    the titles on its path, from the root down to its own, joined by the
    separator. *)
Definition full_title (fuel : nat) (bookmarks : list row) (separator : string)
    (r : row) : string :=
  match parent_generator fuel (row_id r) (make_by_id bookmarks) with
  | Ok parents => String.concat separator (not_none (rev parents))
  | _ => EmptyString
  end.

(** The string holds no NUL byte. *)
Definition nul_free (s : string) : Prop :=
  ¬ In "000"%char (list_ascii_of_string s).

Section ProfileChoice.
Context `{Platform}.

(** The profile directory [main] resolves in list mode:
    [default_profile_path() if args.profile is None else
     path_from_name(args.profile)]. *)
Definition profile_of_args (args : Args) : io Path :=
  match args_profile args with
  | None => default_profile_path
  | Some p => path_from_name p
  end.

(** The lookup that decides [path_from_name] at a section, if the section
    decides: the lookup of its [Name] when that is an error, the lookup of
    its [Path] when it has the requested [Name] and a [Path]; no lookup when
    the section is passed over (no [Name], another [Name], or the requested
    [Name] and no [Path]). *)
Definition named_lookup (name : string) (i : section) : option lookup_outcome :=
  match i !! "Name" with
  | None => None
  | Some (InterpolationError what) => Some (InterpolationError what)
  | Some (Interpolated n) => if bool_decide (n = name) then i !! "Path" else None
  end.

(** How a loop over the sections ends on the first deciding lookup: with the
    directory, with the error of the interpolation, or, when no section
    decides, with the function's own exception. *)
Definition resolved (otherwise : string) (first : option lookup_outcome) :
    result Path :=
  match first with
  | Some (Interpolated p) => Ok (joinpath firefox_dir p)
  | Some (InterpolationError what) => Raise (LibraryError what)
  | None => Raise (Exception otherwise)
  end.


End ProfileChoice.

(** The rows of the running example: the root, the folder Work and the
    bookmark Mail in it. *)
Definition example_rows : list row :=
  [ Row 1 0 2 (Some "root") None;
    Row 2 1 2 (Some "Work") None;
    Row 3 2 1 (Some "Mail") (Some "http://mail.example") ].

(** The example with a bookmark that is its own parent, and with a bookmark
    whose parent is no row, each before the valid bookmark Mail. *)
Definition rows_with_self_parent : list row :=
  [ Row 1 0 2 (Some "root") None;
    Row 5 5 1 (Some "Loop") (Some "http://loop.example");
    Row 2 1 2 (Some "Work") None;
    Row 3 2 1 (Some "Mail") (Some "http://mail.example") ].

Definition rows_with_orphan : list row :=
  [ Row 1 0 2 (Some "root") None;
    Row 7 9 1 (Some "Orphan") (Some "http://orphan.example");
    Row 2 1 2 (Some "Work") None;
    Row 3 2 1 (Some "Mail") (Some "http://mail.example") ].

(** A bookmark without a title directly under the root. *)
Definition rows_with_untitled : list row :=
  [ Row 1 0 2 (Some "root") None;
    Row 3 1 1 None (Some "http://untitled.example") ].

(** What an iteration prints for a bookmark when the filter is empty: the
    entry made of the rendered path, if the climb and the renderer return. *)
Definition unfiltered_entry (fuel : nat) (bookmarks : list row)
    (title_gen : list (option string) → result string) (r : row) : list string :=
  match parent_generator fuel (row_id r) (make_by_id bookmarks) with
  | Ok parents =>
      match title_gen (rev parents) with
      | Ok path => [entry_line path (row_url r)]
      | _ => []
      end
  | _ => []
  end.

(** A platform for the examples: one profile named default. *)
Definition example_platform : Platform := {|
  firefox_dir := "/home/user/.mozilla/firefox";
  joinpath a b := a +:+ "/" +:+ b;
  ini_values content :=
    if bool_decide (content = "[Profile0]")
    then inr [∅; <["Name" := Interpolated "default"]>
                   (<["Path" := Interpolated "abc.default"]> ∅)]
    else inl (LibraryError "ParsingError");
  select_bookmarks content := inr example_rows;
|}.

Definition example_files : world :=
  World (<["/home/user/.mozilla/firefox/profiles.ini" := "[Profile0]"]>
           (<["/home/user/.mozilla/firefox/abc.default/places.sqlite" := "SQLite"]> ∅))
        ∅ [] [].

(** A [profiles.ini] whose first profile has a lone percent sign in its
    name:
    [[Profile0] / Name=50%off / [Profile1] / Name=default / Path=p1],
    one item to a line.  ConfigParser reads it without error; looking the
    [Name] of Profile0 up raises [InterpolationSyntaxError]. *)
Definition newline : string := String "010" EmptyString.

Definition percent_profiles_ini : string :=
  "[Profile0]" +:+ newline +:+ "Name=50%off" +:+ newline +:+
  "[Profile1]" +:+ newline +:+ "Name=default" +:+ newline +:+
  "Path=p1" +:+ newline.

(** An [installs.ini] whose default profile has a lone percent sign in its
    path: [[4F96D1932A9F858E] / Default=Profiles/50%x], one item to a
    line. *)
Definition percent_installs_ini : string :=
  "[4F96D1932A9F858E]" +:+ newline +:+ "Default=Profiles/50%x" +:+ newline.

Definition percent_platform : Platform := {|
  firefox_dir := "/home/user/.mozilla/firefox";
  joinpath a b := a +:+ "/" +:+ b;
  ini_values content :=
    if bool_decide (content = percent_profiles_ini)
    then inr [∅;
              <["Name" := InterpolationError "InterpolationSyntaxError"]> ∅;
              <["Name" := Interpolated "default"]>
                (<["Path" := Interpolated "p1"]> ∅)]
    else if bool_decide (content = percent_installs_ini)
    then inr [∅;
              <["Default" := InterpolationError "InterpolationSyntaxError"]> ∅]
    else inl (LibraryError "ParsingError");
  select_bookmarks content := inr example_rows;
|}.

Definition percent_files : world :=
  World (<["/home/user/.mozilla/firefox/profiles.ini" := percent_profiles_ini]>
           (<["/home/user/.mozilla/firefox/installs.ini" := percent_installs_ini]> ∅))
        ∅ [] [].

Definition empty_world : world := World ∅ ∅ [] [].

(** A context manager to pass where one is expected and none is entered. *)
Definition unused_favicons : context_manager conn := λ R body, lift OutOfFuel.

(** * The ancestor path *)

Lemma parent_generator_mono by_id fuel fuel' i r :
  parent_generator fuel i by_id = r → r ≠ OutOfFuel → fuel ≤ fuel' →
  parent_generator fuel' i by_id = r.
Proof.
  revert fuel' i r. induction fuel as [|fuel IH]; intros fuel' i r Hrun Hr Hle.
  - destruct fuel'; simpl in *; case_bool_decide; congruence.
  - destruct fuel' as [|fuel']; [lia|]. simpl in *.
    case_bool_decide; [|done].
    destruct (by_id !! i) as [[title parent]|]; [|done].
    destruct (parent_generator fuel parent by_id) as [rest| |] eqn:Hrest;
      simpl in Hrun; subst r; try done.
    + rewrite (IH fuel' parent (Ok rest)); [done..| lia].
    + rewrite (IH fuel' parent (Raise e)); [done..| lia].
Qed.

Lemma parent_generator_climbs by_id i ids :
  climbs by_id i ids →
  ∀ fuel, length ids ≤ fuel →
    parent_generator fuel i by_id = Ok (map (title_at by_id) ids).
Proof.
  induction 1 as [i Hi|i title parent ids Hi Hlook _ IH]; intros fuel Hfuel.
  - destruct fuel; simpl; case_bool_decide; done || lia.
  - destruct fuel as [|fuel]; simpl in *; [lia|].
    case_bool_decide; [|lia]. rewrite Hlook.
    rewrite IH by lia. simpl. unfold title_at. by rewrite Hlook.
Qed.

Lemma parent_generator_Ok_climbs by_id fuel i parents :
  parent_generator fuel i by_id = Ok parents →
  ∃ ids, climbs by_id i ids ∧ parents = map (title_at by_id) ids.
Proof.
  revert i parents. induction fuel as [|fuel IH]; intros i parents Hrun;
    simpl in Hrun; case_bool_decide as Hi.
  - done.
  - exists []. split; [apply climbs_sentinel; lia | simpl; congruence].
  - destruct (by_id !! i) as [[title parent]|] eqn:Hlook; [|done].
    destruct (parent_generator fuel parent by_id) as [rest| |] eqn:Hrest;
      simpl in Hrun; try done.
    destruct (IH _ _ Hrest) as (ids & Hclimb & ->).
    exists (i :: ids). split; [by econstructor|].
    simpl. unfold title_at at 1. rewrite Hlook. congruence.
  - exists []. split; [apply climbs_sentinel; lia | simpl; congruence].
Qed.

Lemma climbs_above_sentinel by_id i ids :
  climbs by_id i ids → Forall (λ j, 1 < j)%Z ids.
Proof. induction 1; constructor; done. Qed.

(** C3, as the specification words it, fails: the builder is started at the
    bookmark's own id and its first title is the bookmark's own, not its
    parent's.  For the bookmark Mail (id 3, in the folder Work, id 2) the
    climb visits 3 and 2, the titles from the immediate parent upward are
    those of the ids after the first, [Work], and the builder returns
    [Mail; Work] whenever it returns. *)
Lemma parent_generator_starts_at_own_title :
  let by_id := make_by_id example_rows in
  climbs by_id 3 [3; 2]%Z ∧
  map (title_at by_id) (tail [3; 2]%Z) = [Some "Work"] ∧
  (∀ fuel, 2 ≤ fuel →
     parent_generator fuel 3 by_id = Ok [Some "Mail"; Some "Work"]) ∧
  (∀ fuel, parent_generator fuel 3 by_id
           ≠ Ok (map (title_at by_id) (tail [3; 2]%Z))).
Proof.
  assert (Hrun : ∀ fuel, 2 ≤ fuel →
            parent_generator fuel 3 (make_by_id example_rows)
            = Ok [Some "Mail"; Some "Work"]).
  { intros fuel Hfuel. by apply (parent_generator_mono _ 2). }
  split; [|split; [|split]].
  - eapply climbs_hop; [lia | by vm_compute |].
    eapply climbs_hop; [lia | by vm_compute |].
    apply climbs_sentinel. lia.
  - by vm_compute.
  - exact Hrun.
  - intros [|[|fuel]]; [by vm_compute..|].
    rewrite Hrun by lia. by vm_compute.
Qed.

(** C3, amended: when the chain from [i] reaches the root sentinel, the
    builder returns, for every amount of fuel that covers the hops, the
    titles of the ids the climb visits, which begin with [i] itself (the
    bookmark's own title comes first, then its parent's, and so on upward);
    every id whose title is produced is above the sentinel, and nothing is
    produced exactly when [i <= 1]. *)
Theorem parent_generator_titles by_id i ids :
  climbs by_id i ids →
  (∀ fuel, length ids ≤ fuel →
     parent_generator fuel i by_id = Ok (map (title_at by_id) ids)) ∧
  Forall (λ j, 1 < j)%Z ids ∧
  ((1 < i)%Z → head ids = Some i) ∧
  ((i ≤ 1)%Z ↔ ids = []).
Proof.
  intros Hclimb. split; [|split; [|split]].
  - by apply parent_generator_climbs.
  - by eapply climbs_above_sentinel.
  - destruct Hclimb; [lia | done].
  - destruct Hclimb; split; done || lia.
Qed.

Lemma parent_generator_titles_witness :
  climbs (make_by_id example_rows) 3 [3; 2]%Z ∧
  parent_generator 2 3 (make_by_id example_rows)
  = Ok (map (title_at (make_by_id example_rows)) [3; 2]%Z).
Proof.
  assert (Hclimb : climbs (make_by_id example_rows) 3 [3; 2]%Z).
  { eapply climbs_hop; [lia | by vm_compute |].
    eapply climbs_hop; [lia | by vm_compute |].
    apply climbs_sentinel. lia. }
  split; [exact Hclimb|].
  apply (parent_generator_titles _ _ _ Hclimb). simpl. lia.
Defined.

(** * The path filter *)

Lemma filter_matches_nil path : filter_matches [] path.
Proof. intros k name. by rewrite lookup_nil. Qed.

Lemma filter_matches_cons name search_path x path :
  filter_matches (name :: search_path) (x :: path) ↔
  x = Some name ∧ filter_matches search_path path.
Proof.
  split.
  - intros Hm. split.
    + specialize (Hm 0 name eq_refl). simpl in Hm. congruence.
    + intros k n Hk. apply (Hm (S k) n Hk).
  - intros [-> Hm] [|k] n Hk; simpl in *; [congruence | by apply Hm].
Qed.

Lemma filter_matches_cons_nil name search_path :
  ¬ filter_matches (name :: search_path) [].
Proof. intros Hm. specialize (Hm 0 name eq_refl). done. Qed.

Lemma filter_matches_prefix search_path path :
  filter_matches search_path path ↔
  path = map Some search_path ++ drop (length search_path) path.
Proof.
  revert path. induction search_path as [|name search_path IH]; intros path.
  - split; [done | intros _; apply filter_matches_nil].
  - destruct path as [|x path].
    + split; [by intros ?%filter_matches_cons_nil | done].
    + rewrite filter_matches_cons, IH. simpl. split.
      * intros [-> Hp]. by f_equal.
      * intros [= -> Hp]. done.
Qed.

Lemma filter_matches_length search_path path :
  filter_matches search_path path → length search_path ≤ length path.
Proof.
  intros Hm%filter_matches_prefix. rewrite Hm, length_app, length_map. lia.
Qed.

(** What the filter returns, case by case. *)
Lemma all_names_match_spec search_path path_arr :
  match all_names_match search_path path_arr with
  | Ok (true, rest) =>
      filter_matches search_path path_arr ∧
      rest = drop (length search_path) path_arr
  | Ok (false, _) => ¬ filter_matches search_path path_arr
  | Raise e =>
      e = RuntimeError ∧ length path_arr < length search_path
  | OutOfFuel => False
  end.
Proof.
  revert path_arr.
  induction search_path as [|name search_path IH]; intros path_arr; simpl.
  - split; [apply filter_matches_nil | done].
  - destruct path_arr as [|x path_arr]; simpl; [split; [done | lia]|].
    case_bool_decide as Hx.
    + specialize (IH path_arr).
      destruct (all_names_match search_path path_arr) as [[[] rest]|e|].
      * destruct IH as [Hm ->]. split; [|done].
        apply filter_matches_cons. done.
      * intros [_ Hm]%filter_matches_cons. done.
      * destruct IH as [-> Hlen]. split; [done | lia].
      * done.
    + intros [-> _]%filter_matches_cons. done.
Qed.

(** * One iteration of the loop *)

Lemma prints_nothing c w : (c w).2 = w → prints c w [].
Proof. intros Hw. unfold prints. by rewrite Hw, app_nil_r. Qed.

Lemma prints_nothing_not_included c w : prints c w [] → ¬ included c w.
Proof.
  unfold included, prints. intros Hnone [line Hline].
  rewrite Hnone in Hline. apply (f_equal length) in Hline.
  rewrite !length_app in Hline. simpl in Hline. lia.
Qed.

(** A row that is not a bookmark is passed over. *)
Lemma iteration_not_bookmark fuel bookmarks title_gen search_path r w :
  row_type r ≠ 1%Z →
  iteration fuel bookmarks title_gen search_path r w = (Ok (), w).
Proof.
  intros Ht. unfold iteration, write_rofi_input_row.
  by rewrite bool_decide_eq_true_2.
Qed.

(** A bookmark whose climb returns [parents]: the filter decides, then the
    renderer receives what the filter left of the path. *)
Lemma iteration_bookmark fuel bookmarks title_gen search_path r parents w :
  row_type r = 1%Z →
  parent_generator fuel (row_id r) (make_by_id bookmarks) = Ok parents →
  iteration fuel bookmarks title_gen search_path r w =
  match all_names_match search_path (rev parents) with
  | Ok (true, rest) =>
      match title_gen rest with
      | Ok path =>
          (Ok (), set_stdout (λ out, out ++ [entry_line path (row_url r)]) w)
      | Raise e => (Raise e, w)
      | OutOfFuel => (OutOfFuel, w)
      end
  | Ok (false, _) => (Ok (), w)
  | Raise e => (Raise e, w)
  | OutOfFuel => (OutOfFuel, w)
  end.
Proof.
  intros Ht Hclimb. unfold iteration, write_rofi_input_row.
  rewrite bool_decide_eq_false_2 by (rewrite Ht; auto).
  unfold mbind, io_mbind, io_bind, lift. rewrite Hclimb.
  by destruct (all_names_match search_path (rev parents)) as [[[] rest]|e|].
Qed.

(** A bookmark whose climb does not return: the iteration ends the same
    way. *)
Lemma iteration_climb_diverges fuel bookmarks title_gen search_path r w :
  row_type r = 1%Z →
  parent_generator fuel (row_id r) (make_by_id bookmarks) = OutOfFuel →
  iteration fuel bookmarks title_gen search_path r w = (OutOfFuel, w).
Proof.
  intros Ht Hclimb. unfold iteration, write_rofi_input_row.
  rewrite bool_decide_eq_false_2 by (rewrite Ht; auto).
  unfold mbind, io_mbind, io_bind, lift. by rewrite Hclimb.
Qed.

Lemma iteration_climb_raises fuel bookmarks title_gen search_path r w e :
  row_type r = 1%Z →
  parent_generator fuel (row_id r) (make_by_id bookmarks) = Raise e →
  iteration fuel bookmarks title_gen search_path r w = (Raise e, w).
Proof.
  intros Ht Hclimb. unfold iteration, write_rofi_input_row.
  rewrite bool_decide_eq_false_2 by (rewrite Ht; auto).
  unfold mbind, io_mbind, io_bind, lift. by rewrite Hclimb.
Qed.

Lemma write_rofi_input_row_mono fuel fuel' by_id title_gen search_path r w res w' :
  write_rofi_input_row fuel by_id title_gen search_path r w = (res, w') →
  res ≠ OutOfFuel → fuel ≤ fuel' →
  write_rofi_input_row fuel' by_id title_gen search_path r w = (res, w').
Proof.
  unfold write_rofi_input_row. case_bool_decide; [done|].
  unfold mbind, io_mbind, io_bind, lift. intros Hrun Hres Hle.
  destruct (parent_generator fuel (row_id r) by_id) as [parents|e|] eqn:Hclimb.
  - by rewrite (parent_generator_mono _ _ fuel' _ _ Hclimb).
  - by rewrite (parent_generator_mono _ _ fuel' _ _ Hclimb).
  - congruence.
Qed.

(** * The loop *)

Lemma for_each_app {A} (body : A → io unit) l1 l2 w :
  for_each body (l1 ++ l2) w =
  match for_each body l1 w with
  | (Ok _, w1) => for_each body l2 w1
  | (Raise e, w1) => (Raise e, w1)
  | (OutOfFuel, w1) => (OutOfFuel, w1)
  end.
Proof.
  revert w. induction l1 as [|x l1 IH]; intros w; simpl; [done|].
  unfold mbind, io_mbind, io_bind.
  destruct (body x w) as [[[]|e|] w1]; [apply IH | done..].
Qed.

Lemma for_each_mono fuel fuel' by_id title_gen search_path rows w res w' :
  for_each (write_rofi_input_row fuel by_id title_gen search_path) rows w
  = (res, w') →
  res ≠ OutOfFuel → fuel ≤ fuel' →
  for_each (write_rofi_input_row fuel' by_id title_gen search_path) rows w
  = (res, w').
Proof.
  revert w. induction rows as [|r rows IH]; intros w; simpl; [done|].
  unfold mbind, io_mbind, io_bind. intros Hrun Hres Hle.
  destruct (write_rofi_input_row fuel by_id title_gen search_path r w)
    as [res1 w1] eqn:Hrow.
  destruct res1 as [[]|e|].
  - rewrite (write_rofi_input_row_mono _ fuel' _ _ _ _ _ _ _ Hrow) by done.
    by apply IH.
  - rewrite (write_rofi_input_row_mono _ fuel' _ _ _ _ _ _ _ Hrow) by done.
    done.
  - congruence.
Qed.

Lemma write_rofi_input_mono fuel fuel' bookmarks favicons_gen title_gen
    search_path w res w' :
  write_rofi_input fuel bookmarks favicons_gen title_gen search_path w
  = (res, w') →
  res ≠ OutOfFuel → fuel ≤ fuel' →
  write_rofi_input fuel' bookmarks favicons_gen title_gen search_path w
  = (res, w').
Proof. apply for_each_mono. Qed.

(** * Filtering *)

(** The run is its iterations in sequence: after the rows before [r], the
    iteration of [r] runs, and the rows after [r] follow if it returns. *)
Lemma write_rofi_input_steps fuel pre r post favicons_gen title_gen
    search_path w w1 :
  let bookmarks := pre ++ r :: post in
  for_each (iteration fuel bookmarks title_gen search_path) pre w
  = (Ok (), w1) →
  write_rofi_input fuel bookmarks favicons_gen title_gen search_path w
  = match iteration fuel bookmarks title_gen search_path r w1 with
    | (Ok _, w2) =>
        for_each (iteration fuel bookmarks title_gen search_path) post w2
    | (Raise e, w2) => (Raise e, w2)
    | (OutOfFuel, w2) => (OutOfFuel, w2)
    end.
Proof.
  intros bookmarks Hpre. unfold write_rofi_input.
  change (write_rofi_input_row fuel (make_by_id bookmarks) title_gen
            search_path)
    with (iteration fuel bookmarks title_gen search_path).
  unfold bookmarks at 2. rewrite for_each_app. fold bookmarks.
  by rewrite Hpre.
Qed.

(** When a bookmark is included, exactly: the filter agrees with its path
    at every position of the filter and the renderer returns a title for
    the rest of the path. *)
Lemma included_iff fuel bookmarks title_gen search_path r parents w :
  row_type r = 1%Z →
  parent_generator fuel (row_id r) (make_by_id bookmarks) = Ok parents →
  included (iteration fuel bookmarks title_gen search_path r) w ↔
  filter_matches search_path (rev parents) ∧
  ∃ path, title_gen (drop (length search_path) (rev parents)) = Ok path.
Proof.
  intros Ht Hclimb.
  pose proof (all_names_match_spec search_path (rev parents)) as Hspec.
  unfold included, prints.
  rewrite (iteration_bookmark _ _ _ _ _ _ _ Ht Hclimb).
  assert (∀ line, stdout w ≠ stdout w ++ [line]) as Hgrow.
  { intros line Heq. apply (f_equal length) in Heq.
    rewrite length_app in Heq. simpl in Heq. lia. }
  destruct (all_names_match search_path (rev parents)) as [[[] rest]|e|].
  - destruct Hspec as [Hm ->]. split.
    + intros [line Hline]. split; [done|].
      destruct (title_gen _) as [path| |]; [by eexists|..];
        by apply Hgrow in Hline.
    + intros [_ [path ->]]. by eexists.
  - split; [intros [line Hline]; by apply Hgrow in Hline | by intros []].
  - destruct Hspec as [_ Hlen]. split.
    + intros [line Hline]. by apply Hgrow in Hline.
    + intros [Hm%filter_matches_length _]. lia.
  - done.
Qed.

(** What is printed stays printed: an iteration, and the loop, only add to
    standard output. *)
Lemma iteration_stdout fuel bookmarks title_gen search_path r w :
  ∃ lines,
    stdout (iteration fuel bookmarks title_gen search_path r w).2
    = stdout w ++ lines.
Proof.
  unfold iteration, write_rofi_input_row. case_bool_decide.
  - exists []. simpl. by rewrite app_nil_r.
  - unfold mbind, io_mbind, io_bind, lift.
    destruct (parent_generator _ _ _) as [parents| |];
      [|exists []; simpl; by rewrite app_nil_r..].
    destruct (all_names_match _ _) as [[[] rest]| |];
      [|exists []; simpl; by rewrite app_nil_r..].
    destruct (title_gen rest) as [path| |];
      [|exists []; simpl; by rewrite app_nil_r..].
    by eexists.
Qed.

Lemma for_each_stdout fuel bookmarks title_gen search_path rows w :
  ∃ lines,
    stdout (for_each (iteration fuel bookmarks title_gen search_path) rows w).2
    = stdout w ++ lines.
Proof.
  revert w. induction rows as [|r rows IH]; intros w; simpl.
  - exists []. by rewrite app_nil_r.
  - unfold mbind, io_mbind, io_bind.
    destruct (iteration_stdout fuel bookmarks title_gen search_path r w)
      as [lines1 Hr].
    destruct (iteration fuel bookmarks title_gen search_path r w)
      as [[[]|e|] w1]; simpl in Hr; [|by eexists..].
    destruct (IH w1) as [lines2 Hrows]. exists (lines1 ++ lines2).
    by rewrite Hrows, Hr, app_assoc.
Qed.

(** C1, as stated, fails, in two ways.  With the filter Work/Mail the path
    of the bookmark Mail, [Work; Mail], agrees with the filter at both
    positions, yet the bookmark is not included: the filter has used up the
    whole path, the final-segment renderer finds nothing left and raises
    [IndexError], and the run ends with nothing printed.  And in the table
    with the orphan, the bookmark Mail agrees with the empty filter, yet
    the run ends with [KeyError] at the orphan, before it reaches Mail, and
    prints nothing. *)
Lemma matching_filter_not_included :
  let r := Row 3 2 1 (Some "Mail") (Some "http://mail.example") in
  let search_path := ["Work"; "Mail"] in
  (r ∈ example_rows ∧
   parent_generator 2 3 (make_by_id example_rows)
   = Ok [Some "Mail"; Some "Work"] ∧
   filter_matches search_path (rev [Some "Mail"; Some "Work"]) ∧
   (∀ fuel w,
      ¬ included
          (iteration fuel example_rows title_gen_only_name search_path r) w) ∧
   (∀ fuel, 2 ≤ fuel →
      write_rofi_input fuel example_rows unused_favicons title_gen_only_name
        search_path empty_world
      = (Raise IndexError, empty_world))) ∧
  (r ∈ rows_with_orphan ∧
   parent_generator 2 3 (make_by_id rows_with_orphan)
   = Ok [Some "Mail"; Some "Work"] ∧
   filter_matches [] (rev [Some "Mail"; Some "Work"]) ∧
   (∀ fuel, 2 ≤ fuel →
      write_rofi_input fuel rows_with_orphan unused_favicons
        title_gen_only_name [] empty_world
      = (Raise KeyError, empty_world))).
Proof.
  assert (Hclimb : ∀ fuel, 2 ≤ fuel →
            parent_generator fuel 3 (make_by_id example_rows)
            = Ok [Some "Mail"; Some "Work"]).
  { intros fuel Hfuel. by apply (parent_generator_mono _ 2). }
  split; [split; [|split; [|split; [|split]]] | split; [|split; [|split]]].
  - set_solver.
  - by vm_compute.
  - intros [|[|k]] name; simpl; [congruence..|]. by rewrite lookup_nil.
  - intros fuel w. apply prints_nothing_not_included, prints_nothing.
    destruct (decide (2 ≤ fuel)) as [Hfuel|Hfuel].
    + by rewrite (iteration_bookmark fuel example_rows title_gen_only_name
                    ["Work"; "Mail"] (Row 3 2 1 _ _) _ w eq_refl
                    (Hclimb fuel Hfuel)).
    + by destruct fuel as [|[|fuel]]; [..|lia].
  - intros fuel Hfuel. by apply (write_rofi_input_mono 2).
  - set_solver.
  - by vm_compute.
  - apply filter_matches_nil.
  - intros fuel Hfuel. by apply (write_rofi_input_mono 2).
Qed.

(** C1, amended.  For a bookmark-type row whose climb returns, let its path
    be the climb's titles reversed: the titles of its folders from the root
    down, followed by the bookmark's own title.  Let the run reach the row,
    the rows before it processed without error.  If the row is included
    (its iteration prints an entry), the filter equals the path at every
    position of the filter.  Conversely, if the filter equals the path at
    every position of the filter and the title renderer returns a title for
    what the path holds after those positions, the row is included: its
    iteration prints the entry with that title, and the entry is in the
    output of the run, after what the earlier rows printed. *)
Theorem filter_policy fuel pre r post favicons_gen title_gen search_path
    parents w w1 :
  let bookmarks := pre ++ r :: post in
  row_type r = 1%Z →
  parent_generator fuel (row_id r) (make_by_id bookmarks) = Ok parents →
  for_each (iteration fuel bookmarks title_gen search_path) pre w
  = (Ok (), w1) →
  (included (iteration fuel bookmarks title_gen search_path r) w1 →
   filter_matches search_path (rev parents)) ∧
  (filter_matches search_path (rev parents) →
   ∀ path, title_gen (drop (length search_path) (rev parents)) = Ok path →
     included (iteration fuel bookmarks title_gen search_path r) w1 ∧
     prints (iteration fuel bookmarks title_gen search_path r) w1
       [entry_line path (row_url r)] ∧
     ∃ later,
       stdout (write_rofi_input fuel bookmarks favicons_gen title_gen
                 search_path w).2
       = stdout w1 ++ entry_line path (row_url r) :: later).
Proof.
  intros bookmarks Ht Hclimb Hpre.
  pose proof (included_iff fuel bookmarks title_gen search_path r parents w1
                Ht Hclimb) as Hiff.
  split; [by intros [Hm _]%Hiff|].
  intros Hm path Hpath.
  assert (iteration fuel bookmarks title_gen search_path r w1
          = (Ok (), set_stdout (λ out, out ++ [entry_line path (row_url r)]) w1))
    as Hrow.
  { rewrite (iteration_bookmark _ _ _ _ _ _ _ Ht Hclimb).
    pose proof (all_names_match_spec search_path (rev parents)) as Hspec.
    destruct (all_names_match search_path (rev parents)) as [[[] rest]|e|].
    - destruct Hspec as [_ ->]. by rewrite Hpath.
    - done.
    - destruct Hspec as [_ Hlen]. apply filter_matches_length in Hm. lia.
    - done. }
  split; [apply Hiff; eauto|]. split; [unfold prints; by rewrite Hrow|].
  rewrite (write_rofi_input_steps fuel pre r post _ _ _ w w1 Hpre).
  fold bookmarks. rewrite Hrow.
  destruct (for_each_stdout fuel bookmarks title_gen search_path post
              (set_stdout (λ out, out ++ [entry_line path (row_url r)]) w1))
    as [later ->].
  exists later. simpl. by rewrite <- app_assoc.
Qed.

Lemma filter_policy_witness :
  let pre := [Row 1 0 2 (Some "root") None; Row 2 1 2 (Some "Work") None] in
  let r := Row 3 2 1 (Some "Mail") (Some "http://mail.example") in
  row_type r = 1%Z ∧
  parent_generator 2 (row_id r) (make_by_id (pre ++ r :: []))
  = Ok [Some "Mail"; Some "Work"] ∧
  prints (iteration 2 (pre ++ r :: []) title_gen_only_name ["Work"] r)
    empty_world [entry_line "Mail" (Some "http://mail.example")].
Proof.
  split; [reflexivity|]. split; [vm_compute; reflexivity|].
  refine (proj1 (proj2 (proj2
    (filter_policy 2
       [Row 1 0 2 (Some "root") None; Row 2 1 2 (Some "Work") None]
       (Row 3 2 1 (Some "Mail") (Some "http://mail.example")) []
       unused_favicons title_gen_only_name ["Work"]
       [Some "Mail"; Some "Work"] empty_world empty_world _ _ _)
    _ "Mail" _))).
  - reflexivity.
  - vm_compute; reflexivity.
  - vm_compute; reflexivity.
  - intros [|k] name; simpl; intros Hk; [congruence | discriminate].
  - reflexivity.
Defined.




(** Under final-segment rendering the same holds one segment further: a
    bookmark with no more path segments than the filter has, its own title
    counted, is not included. *)
Lemma no_longer_path_not_included fuel bookmarks search_path r parents w :
  row_type r = 1%Z →
  parent_generator fuel (row_id r) (make_by_id bookmarks) = Ok parents →
  length (rev parents) ≤ length search_path →
  ¬ included (iteration fuel bookmarks title_gen_only_name search_path r) w.
Proof.
  intros Ht Hclimb Hlen [Hm [path Hpath]]%(included_iff _ _ _ _ _ _ _ Ht Hclimb).
  by rewrite drop_ge in Hpath.
Qed.

(** Under full-path rendering a filter that equals the whole path of a
    bookmark leaves the empty rest to join: the bookmark is printed with an
    empty title. *)
Example whole_path_filter_full_path :
  write_rofi_input 2 example_rows unused_favicons (title_gen_full_path " / ")
    ["Work"; "Mail"] empty_world
  = (Ok (),
     set_stdout (λ out, out ++ [entry_line "" (Some "http://mail.example")])
       empty_world).
Proof. by vm_compute. Qed.

(** C10.  When the filter is not empty and equals the whole path of a
    bookmark, its own title included, the filter has taken every element
    from the iterator, the final-segment renderer is given the empty rest,
    and the run ends with [IndexError] at that row: standard output holds
    what the earlier rows printed and no entry for this one. *)
Theorem whole_path_filter_raises fuel pre r post favicons_gen search_path
    parents w w1 :
  let bookmarks := pre ++ r :: post in
  row_type r = 1%Z →
  parent_generator fuel (row_id r) (make_by_id bookmarks) = Ok parents →
  search_path ≠ [] →
  rev parents = map Some search_path →
  for_each (iteration fuel bookmarks title_gen_only_name search_path) pre w
  = (Ok (), w1) →
  all_names_match search_path (rev parents) = Ok (true, []) ∧
  title_gen_only_name [] = Raise IndexError ∧
  iteration fuel bookmarks title_gen_only_name search_path r w1
  = (Raise IndexError, w1) ∧
  write_rofi_input fuel bookmarks favicons_gen title_gen_only_name search_path w
  = (Raise IndexError, w1).
Proof.
  intros bookmarks Ht Hclimb Hne Hpath Hpre.
  assert (all_names_match search_path (rev parents) = Ok (true, [])) as Hall.
  { pose proof (all_names_match_spec search_path (rev parents)) as Hspec.
    assert (filter_matches search_path (rev parents)) as Hm.
    { apply filter_matches_prefix.
      rewrite Hpath at 2. rewrite drop_ge by (by rewrite length_map).
      by rewrite app_nil_r. }
    destruct (all_names_match search_path (rev parents)) as [[[] rest]|e|].
    - destruct Hspec as [_ ->].
      by rewrite Hpath, drop_ge by (by rewrite length_map).
    - done.
    - destruct Hspec as [_ Hlen]. rewrite Hpath, length_map in Hlen. lia.
    - done. }
  assert (iteration fuel bookmarks title_gen_only_name search_path r w1
          = (Raise IndexError, w1)) as Hrow.
  { by rewrite (iteration_bookmark _ _ _ _ _ _ _ Ht Hclimb), Hall. }
  split; [done|]. split; [done|]. split; [done|].
  unfold write_rofi_input. fold bookmarks.
  change (write_rofi_input_row fuel (make_by_id bookmarks) title_gen_only_name
            search_path)
    with (iteration fuel bookmarks title_gen_only_name search_path).
  unfold bookmarks at 2. rewrite for_each_app, Hpre. simpl.
  unfold mbind, io_mbind, io_bind. fold bookmarks. by rewrite Hrow.
Qed.

Lemma whole_path_filter_raises_witness :
  let pre := [Row 1 0 2 (Some "root") None; Row 2 1 2 (Some "Work") None] in
  let r := Row 3 2 1 (Some "Mail") (Some "http://mail.example") in
  let search_path := ["Work"; "Mail"] in
  pre ++ r :: [] = example_rows ∧
  search_path ≠ [] ∧
  write_rofi_input 2 example_rows unused_favicons title_gen_only_name
    search_path empty_world
  = (Raise IndexError, empty_world).
Proof.
  split; [reflexivity|]. split; [discriminate|].
  refine (proj2 (proj2 (proj2
    (whole_path_filter_raises 2
       [Row 1 0 2 (Some "root") None; Row 2 1 2 (Some "Work") None]
       (Row 3 2 1 (Some "Mail") (Some "http://mail.example")) []
       unused_favicons ["Work"; "Mail"] [Some "Mail"; Some "Work"]
       empty_world empty_world _ _ _ _ _)))).
  - reflexivity.
  - vm_compute; reflexivity.
  - discriminate.
  - reflexivity.
  - vm_compute; reflexivity.
Defined.

(** * Malformed parent chains *)

Lemma hop_diverges by_id i j :
  hop by_id i j →
  diverges (λ fuel, parent_generator fuel j by_id) →
  diverges (λ fuel, parent_generator fuel i by_id).
Proof.
  intros [Hi [title Hlook]] Hj [|fuel]; simpl;
    rewrite bool_decide_eq_true_2 by done; [done|].
  by rewrite Hlook, Hj.
Qed.

Lemma cycle_diverges by_id j :
  tc (hop by_id) j j → diverges (λ fuel, parent_generator fuel j by_id).
Proof.
  intros Hcycle fuel. revert j Hcycle.
  induction fuel as [|fuel IH]; intros j Hcycle;
    assert (∃ k, hop by_id j k ∧ tc (hop by_id) k k) as (k & Hjk & Hk)
      by (inversion Hcycle as [?? Hjj|? k ? Hjk Hkj]; subst;
          [by exists j | exists k; split; [done | by eapply tc_r]]);
    destruct Hjk as [Hj [title Hlook]]; simpl;
    rewrite bool_decide_eq_true_2 by done; [done|].
  by rewrite Hlook, IH.
Qed.

Lemma runs_into_cycle_diverges by_id i :
  runs_into_cycle by_id i →
  diverges (λ fuel, parent_generator fuel i by_id).
Proof.
  intros (j & Hreach & Hcycle).
  induction Hreach as [j|i k j Hik _ IH]; [by apply cycle_diverges|].
  eapply hop_diverges; [done | by apply IH].
Qed.

Lemma dangles_KeyError by_id i :
  dangles by_id i →
  ∃ fuel0, ∀ fuel, fuel0 ≤ fuel →
    parent_generator fuel i by_id = Raise KeyError.
Proof.
  intros (j & Hreach & Hj & Hnone).
  induction Hreach as [j|i k j [Hi [title Hlook]] _ IH].
  - exists 1. intros [|fuel] Hfuel; [lia|]. simpl.
    rewrite bool_decide_eq_true_2 by done. by rewrite Hnone.
  - destruct (IH Hj Hnone) as [fuel0 Hk]. exists (S fuel0).
    intros [|fuel] Hfuel; [lia|]. simpl.
    rewrite bool_decide_eq_true_2 by done.
    rewrite Hlook, Hk by lia. done.
Qed.

(** The run ends at the first row whose iteration does not return. *)
Lemma write_rofi_input_stops fuel pre r post favicons_gen title_gen
    search_path w w1 res w2 :
  let bookmarks := pre ++ r :: post in
  for_each (iteration fuel bookmarks title_gen search_path) pre w
  = (Ok (), w1) →
  iteration fuel bookmarks title_gen search_path r w1 = (res, w2) →
  res ≠ Ok () →
  write_rofi_input fuel bookmarks favicons_gen title_gen search_path w
  = (res, w2).
Proof.
  intros bookmarks Hpre Hrow Hres. unfold write_rofi_input.
  change (write_rofi_input_row fuel (make_by_id bookmarks) title_gen
            search_path)
    with (iteration fuel bookmarks title_gen search_path).
  unfold bookmarks at 2. rewrite for_each_app. fold bookmarks.
  rewrite Hpre. simpl. unfold mbind, io_mbind, io_bind. rewrite Hrow.
  by destruct res as [[]|e|].
Qed.

(** C2, as stated, fails: the script has no hop bound and no visited set,
    and nothing catches the [KeyError] of a missing parent.  A bookmark that
    is its own parent makes the run loop without end, for every amount of
    fuel; a bookmark whose parent is no row ends the run with [KeyError].
    In both examples the valid bookmark Mail, which comes later in the
    table, is not printed. *)
Lemma malformed_row_not_isolated :
  let mail := Row 3 2 1 (Some "Mail") (Some "http://mail.example") in
  (mail ∈ rows_with_self_parent ∧
   climbs (make_by_id rows_with_self_parent) (row_id mail) [3; 2]%Z ∧
   ∀ fuel,
     write_rofi_input fuel rows_with_self_parent unused_favicons
       title_gen_only_name [] empty_world
     = (OutOfFuel, empty_world)) ∧
  (mail ∈ rows_with_orphan ∧
   climbs (make_by_id rows_with_orphan) (row_id mail) [3; 2]%Z ∧
   ∀ fuel, 2 ≤ fuel →
     write_rofi_input fuel rows_with_orphan unused_favicons
       title_gen_only_name [] empty_world
     = (Raise KeyError, empty_world)).
Proof.
  split; (split; [set_solver|]); (split;
    [ eapply climbs_hop; [lia | by vm_compute |];
      eapply climbs_hop; [lia | by vm_compute |];
      apply climbs_sentinel; lia |]).
  - intros fuel.
    apply (write_rofi_input_stops fuel
             [Row 1 0 2 (Some "root") None]
             (Row 5 5 1 (Some "Loop") (Some "http://loop.example"))
             [Row 2 1 2 (Some "Work") None;
              Row 3 2 1 (Some "Mail") (Some "http://mail.example")]
             _ _ _ _ empty_world); [done| |done].
    apply iteration_climb_diverges; [done|].
    apply (cycle_diverges _ 5). apply tc_once.
    split; [lia|]. eexists. by vm_compute.
  - intros fuel Hfuel. by apply (write_rofi_input_mono 2).
Qed.

(** C2, amended.  A malformed parent chain is not detected and the row is
    not skipped: the listing ends at the first bookmark-type row that has
    one.  Let the rows before [r] be processed without error, leaving the
    world [w1].  If the chain of [r] runs into a cycle, the run returns for
    no amount of fuel, and what it has printed is what the rows before [r]
    printed.  If the chain of [r] reaches an id that no row has, the run
    raises [KeyError], again with only the output of the rows before [r].
    No later row is printed in either case. *)
Theorem malformed_chain_ends_listing fuel0 pre r post favicons_gen title_gen
    search_path w w1 :
  let bookmarks := pre ++ r :: post in
  let by_id := make_by_id bookmarks in
  row_type r = 1%Z →
  for_each (iteration fuel0 bookmarks title_gen search_path) pre w
  = (Ok (), w1) →
  (runs_into_cycle by_id (row_id r) →
   ∀ fuel,
     (write_rofi_input fuel bookmarks favicons_gen title_gen search_path w).1
     = OutOfFuel ∧
     (fuel0 ≤ fuel →
      write_rofi_input fuel bookmarks favicons_gen title_gen search_path w
      = (OutOfFuel, w1))) ∧
  (dangles by_id (row_id r) →
   ∃ fuel1, ∀ fuel, fuel1 ≤ fuel →
     write_rofi_input fuel bookmarks favicons_gen title_gen search_path w
     = (Raise KeyError, w1)).
Proof.
  intros bookmarks by_id Ht Hpre.
  assert (Hreach : ∀ fuel, fuel0 ≤ fuel →
            for_each (iteration fuel bookmarks title_gen search_path) pre w
            = (Ok (), w1)).
  { intros fuel Hfuel. by apply (for_each_mono fuel0). }
  split.
  - intros Hcycle%runs_into_cycle_diverges.
    assert (Hrow : ∀ fuel w',
              iteration fuel bookmarks title_gen search_path r w'
              = (OutOfFuel, w')).
    { intros fuel w'. apply iteration_climb_diverges; [done|].
      apply Hcycle. }
    assert (Hlate : ∀ fuel, fuel0 ≤ fuel →
              write_rofi_input fuel bookmarks favicons_gen title_gen
                search_path w = (OutOfFuel, w1)).
    { intros fuel Hfuel.
      by apply (write_rofi_input_stops fuel pre r post _ _ _ _ w1);
        [apply Hreach | apply Hrow |]. }
    intros fuel. split; [|by apply Hlate].
    destruct (decide (fuel0 ≤ fuel)) as [Hfuel|Hfuel];
      [by rewrite Hlate|].
    destruct (write_rofi_input fuel bookmarks favicons_gen title_gen
                search_path w) as [res w2] eqn:Hrun.
    destruct res as [[]|e|]; [..|done];
      apply (write_rofi_input_mono _ fuel0) in Hrun; [|done|lia| |done|lia];
      rewrite Hlate in Hrun; done.
  - intros Hdangle%dangles_KeyError. destruct Hdangle as [fuel1 Hkey].
    exists (fuel0 `max` fuel1). intros fuel Hfuel.
    apply (write_rofi_input_stops fuel pre r post _ _ _ _ w1);
      [apply Hreach; lia| |done].
    apply iteration_climb_raises; [done|]. apply Hkey. lia.
Qed.

Lemma malformed_chain_ends_listing_witness :
  let pre := [Row 1 0 2 (Some "root") None] in
  let r := Row 5 5 1 (Some "Loop") (Some "http://loop.example") in
  let post := [Row 2 1 2 (Some "Work") None;
               Row 3 2 1 (Some "Mail") (Some "http://mail.example")] in
  row_type r = 1%Z ∧
  runs_into_cycle (make_by_id (pre ++ r :: post)) (row_id r) ∧
  ∀ fuel,
    (write_rofi_input fuel (pre ++ r :: post) unused_favicons
       title_gen_only_name [] empty_world).1 = OutOfFuel.
Proof.
  assert (runs_into_cycle (make_by_id rows_with_self_parent) 5) as Hcycle.
  { exists 5%Z. split; [apply rtc_refl|]. apply tc_once.
    split; [lia|]. eexists. vm_compute. reflexivity. }
  split; [reflexivity|]. split; [exact Hcycle|].
  intros fuel.
  refine (proj1 (proj1
    (malformed_chain_ends_listing 0
       [Row 1 0 2 (Some "root") None]
       (Row 5 5 1 (Some "Loop") (Some "http://loop.example"))
       [Row 2 1 2 (Some "Work") None;
        Row 3 2 1 (Some "Mail") (Some "http://mail.example")]
       unused_favicons title_gen_only_name [] empty_world empty_world
       _ _) Hcycle fuel)).
  - reflexivity.
  - reflexivity.
Defined.

(** * The listing without a filter *)

Lemma set_stdout_app l1 l2 w :
  set_stdout (λ out, out ++ l2) (set_stdout (λ out, out ++ l1) w)
  = set_stdout (λ out, out ++ (l1 ++ l2)) w.
Proof. unfold set_stdout. simpl. by rewrite app_assoc. Qed.

Lemma set_stdout_nil w : set_stdout (λ out, out ++ []) w = w.
Proof. destruct w. unfold set_stdout. simpl. by rewrite app_nil_r. Qed.

(** With the empty filter, when the climb of every bookmark-type row returns
    and the renderer returns a title for its path, the run returns and
    prints one entry for each bookmark-type row, in the order of the table,
    and nothing for the other rows. *)
Lemma unfiltered_listing fuel bookmarks favicons_gen title_gen w :
  (∀ r, r ∈ bookmarks → row_type r = 1%Z →
     ∃ parents path,
       parent_generator fuel (row_id r) (make_by_id bookmarks) = Ok parents ∧
       title_gen (rev parents) = Ok path) →
  write_rofi_input fuel bookmarks favicons_gen title_gen [] w
  = (Ok (),
     set_stdout
       (λ out, out ++ flat_map (unfiltered_entry fuel bookmarks title_gen)
                        (filter (λ r, row_type r = 1%Z) bookmarks)) w) ∧
  Forall (λ r, length (unfiltered_entry fuel bookmarks title_gen r) = 1)
    (filter (λ r, row_type r = 1%Z) bookmarks).
Proof.
  unfold write_rofi_input.
  change (write_rofi_input_row fuel (make_by_id bookmarks) title_gen [])
    with (iteration fuel bookmarks title_gen []).
  generalize bookmarks at 1 4 6 8 as rows. intros rows. revert w.
  induction rows as [|r rows IH]; intros w Hrows.
  - simpl. split; [|done]. by rewrite set_stdout_nil.
  - assert (∀ r', r' ∈ rows → row_type r' = 1%Z →
              ∃ parents path,
                parent_generator fuel (row_id r') (make_by_id bookmarks)
                = Ok parents ∧ title_gen (rev parents) = Ok path) as Hrest.
    { intros r' Hr'. apply Hrows. by right. }
    simpl for_each. unfold mbind, io_mbind, io_bind.
    destruct (decide (row_type r = 1%Z)) as [Ht|Ht].
    + destruct (Hrows r) as (parents & path & Hclimb & Hpath); [by left|done|].
      rewrite (iteration_bookmark _ _ _ _ _ _ _ Ht Hclimb). simpl.
      rewrite Hpath. rewrite filter_cons_True by done. simpl.
      destruct (IH (set_stdout (λ out, out ++ [entry_line path (row_url r)]) w)
                  Hrest) as [-> Hall].
      split.
      * rewrite set_stdout_app. unfold unfiltered_entry at 2.
        by rewrite Hclimb, Hpath.
      * constructor; [|done]. unfold unfiltered_entry.
        by rewrite Hclimb, Hpath.
    + rewrite iteration_not_bookmark by done.
      rewrite filter_cons_False by done. by apply IH.
Qed.

(** C5, as stated, fails: the entry the script prints has no space between
    the unit separator and the URL. *)
Lemma example_entry_has_no_space :
  stdout (write_rofi_input 2 example_rows unused_favicons
            (title_gen_full_path " / ") [] empty_world).2
  = ["Work / Mail" +:+ NUL +:+ "info" +:+ US +:+ "http://mail.example"] ∧
  ¬ ∃ fuel,
      stdout (write_rofi_input fuel example_rows unused_favicons
                (title_gen_full_path " / ") [] empty_world).2
      = ["Work / Mail" +:+ NUL +:+ "info" +:+ US +:+ " http://mail.example"].
Proof.
  split; [by vm_compute|].
  intros [[|[|fuel]] Hout]; [by vm_compute in Hout..|].
  rewrite (write_rofi_input_mono 2 (S (S fuel)) example_rows unused_favicons
             (title_gen_full_path " / ") [] empty_world (Ok ())
             (set_stdout (λ out, out ++ [entry_line "Work / Mail"
                                           (Some "http://mail.example")])
                empty_world)) in Hout; [by vm_compute in Hout|by vm_compute|done|lia].
Qed.

(** C5, amended.  For the rows of the example and the empty filter, the run
    under full-path rendering with the separator " / " returns and prints
    exactly one entry, [Work / Mail\x00info\x1fhttp://mail.example]: the
    URL follows the unit separator at once. *)
Theorem example_listing_full_path fuel favicons_gen w :
  2 ≤ fuel →
  write_rofi_input fuel example_rows favicons_gen (title_gen_full_path " / ")
    [] w
  = (Ok (),
     set_stdout
       (λ out, out ++ ["Work / Mail" +:+ NUL +:+ "info" +:+ US
                       +:+ "http://mail.example"]) w).
Proof.
  intros Hfuel. by apply (write_rofi_input_mono 2).
Qed.

Lemma example_listing_full_path_witness :
  2 ≤ 5 ∧
  stdout (write_rofi_input 5 example_rows unused_favicons
            (title_gen_full_path " / ") [] empty_world).2
  = ["Work / Mail" +:+ NUL +:+ "info" +:+ US +:+ "http://mail.example"].
Proof.
  split; [lia|].
  rewrite (example_listing_full_path 5 unused_favicons empty_world); [|lia].
  reflexivity.
Defined.

(** C7 does not hold of the script as it is run, with final-segment
    rendering: a bookmark with no title on its whole path (here an untitled
    bookmark directly under the root) has a chain that ends at the sentinel,
    yet with the empty filter the renderer takes the last element of an
    empty list, the run ends with [IndexError] and prints no line for it.
    Under full-path rendering the same table gives one line. *)
Theorem untitled_bookmark_raises_IndexError :
  let by_id := make_by_id rows_with_untitled in
  climbs by_id 3 [3]%Z ∧
  (∀ fuel,
     write_rofi_input (S fuel) rows_with_untitled unused_favicons
       title_gen_only_name [] empty_world
     = (Raise IndexError, empty_world)) ∧
  (∀ fuel,
     write_rofi_input (S fuel) rows_with_untitled unused_favicons
       (title_gen_full_path " / ") [] empty_world
     = (Ok (), set_stdout (λ out, out ++ [entry_line ""
                                            (Some "http://untitled.example")])
                 empty_world)).
Proof.
  split; [|split].
  - eapply climbs_hop; [lia | by vm_compute |]. apply climbs_sentinel. lia.
  - intros fuel. apply (write_rofi_input_mono 1); [by vm_compute|done|lia].
  - intros fuel. apply (write_rofi_input_mono 1); [by vm_compute|done|lia].
Qed.

(** * The temporary copy *)

Lemma tempfile_name_fresh w : files w !! tempfile_name w = None.
Proof.
  unfold tempfile_name. apply (not_elem_of_dom (D:=gset Path)), is_fresh.
Qed.

Lemma connection_handle_fresh w : conns w !! connection_handle w = None.
Proof.
  unfold connection_handle. apply (not_elem_of_dom (D:=gset conn)), is_fresh.
Qed.

(** C6.  [temp_sqlite] leaves neither its temporary file nor its
    connection behind, on every path on which its block is left.  When the
    source cannot be copied, the error is raised and the world is as
    before, the temporary file gone.  When the copy succeeds, the body runs
    on a connection to the copy; whether it returns a value or raises, that
    outcome is the outcome of [temp_sqlite], and the world is the one the
    body left with the connection closed and the temporary file removed. *)
Theorem temp_sqlite_releases {R} path (body : conn → io R) w :
  let tmp := tempfile_name w in
  let h := connection_handle w in
  (files w !! path = None →
   ∃ e, temp_sqlite path R body w = (Raise e, w) ∧ files w !! tmp = None) ∧
  (∀ content r w',
     files w !! path = Some content →
     body h (set_conns (insert h tmp) (set_files (insert tmp content) w))
     = (r, w') →
     r ≠ OutOfFuel →
     let w'' := set_files (delete tmp) (set_conns (delete h) w') in
     temp_sqlite path R body w = (r, w'') ∧
     files w'' !! tmp = None ∧
     conns w'' !! h = None).
Proof.
  intros tmp h. pose proof (tempfile_name_fresh w) as Htmp. fold tmp in Htmp.
  assert (set_files (delete tmp) (set_files (insert tmp EmptyString) w) = w)
    as Hrestore.
  { destruct w as [fs cs out ps]. unfold set_files. simpl in *.
    by rewrite delete_insert_eq, delete_id. }
  split.
  - intros Hpath.
    unfold temp_sqlite, with_, NamedTemporaryFile_enter,
      NamedTemporaryFile_exit, copyfile, mbind, io_mbind, io_bind.
    fold tmp. simpl.
    destruct (decide (path = tmp)) as [->|Hne].
    + rewrite lookup_insert_eq, bool_decide_eq_true_2 by done.
      rewrite Hrestore. by eexists.
    + rewrite lookup_insert_ne, Hpath by done.
      rewrite Hrestore. by eexists.
  - intros content r w' Hpath Hbody Hr w''.
    assert (path ≠ tmp) as Hne by congruence.
    split; [|split; [apply lookup_delete_eq | apply lookup_delete_eq]].
    unfold temp_sqlite, with_, NamedTemporaryFile_enter,
      NamedTemporaryFile_exit, copyfile, sqlite3_connect, close,
      mbind, io_mbind, io_bind.
    fold tmp. simpl.
    rewrite lookup_insert_ne, Hpath, bool_decide_eq_false_2 by done.
    simpl. unfold connection_handle at 1. simpl. fold (connection_handle w).
    fold h.
    replace (set_conns (insert h tmp)
               (set_files (insert tmp content)
                  (set_files (insert tmp EmptyString) w)))
      with (set_conns (insert h tmp) (set_files (insert tmp content) w)).
    + rewrite Hbody. by destruct r.
    + unfold set_conns, set_files. simpl. by rewrite insert_insert_eq.
Qed.

Lemma temp_sqlite_releases_witness :
  let path := "/home/user/.mozilla/firefox/abc.default/places.sqlite" in
  let body : conn → io unit := λ _, lift (Raise (Exception "forced failure")) in
  files example_files !! path = Some "SQLite" ∧
  ∃ w'',
    temp_sqlite path _ body example_files
    = (Raise (Exception "forced failure"), w'') ∧
    files w'' !! tempfile_name example_files = None ∧
    conns w'' !! connection_handle example_files = None.
Proof.
  split; [vm_compute; reflexivity|]. eexists.
  refine (proj2 (temp_sqlite_releases
                   "/home/user/.mozilla/firefox/abc.default/places.sqlite"
                   (λ _, lift (Raise (Exception "forced failure")))
                   example_files)
            "SQLite" (Raise (Exception "forced failure")) _ _ _ _).
  - vm_compute; reflexivity.
  - reflexivity.
  - discriminate.
Defined.

(** * Profiles *)

Section Profiles.
Context `{Platform}.

Lemma for_return_passes_over {A B} (block : A → result (option B)) pre l otherwise :
  Forall (λ i, block i = Ok None) pre →
  for_return block (pre ++ l) otherwise = for_return block l otherwise.
Proof. induction 1 as [|i pre Hi _ IH]; simpl; [done|]. by rewrite Hi. Qed.

(** The block of the loop of [path_from_name], by the lookup that decides
    at the section. *)
Lemma path_from_name_block name (i : section) :
  suppress_KeyError
    (n ← item i "Name";
     if bool_decide (n = name)
     then p ← item i "Path"; Ok (Some (joinpath firefox_dir p))
     else Ok None)
  = match named_lookup name i with
    | None => Ok None
    | Some (Interpolated p) => Ok (Some (joinpath firefox_dir p))
    | Some (InterpolationError what) => Raise (LibraryError what)
    end.
Proof.
  unfold item, named_lookup.
  destruct (i !! "Name") as [[n|what]|]; simpl; [|done..].
  case_bool_decide; [|done]. by destruct (i !! "Path") as [[p|what]|].
Qed.



(** A section with the requested [Name] and no [Path] is passed over, like
    a section with another name: the [KeyError] of [i['Path']] is
    suppressed. *)
Lemma path_from_name_needs_path name w values pre :
  ConfigParser_read_values (joinpath firefox_dir "profiles.ini") w
  = (Ok (pre ++ values), w) →
  Forall (λ j : section,
            j !! "Path" = None ∧
            ∀ what, j !! "Name" ≠ Some (InterpolationError what)) pre →
  path_from_name name w
  = (for_return
       (λ i, suppress_KeyError
               (n ← item i "Name";
                if bool_decide (n = name)
                then p ← item i "Path"; Ok (Some (joinpath firefox_dir p))
                else Ok None))
       values (Raise (Exception "no profile with this name")), w).
Proof.
  intros Hread Hpre.
  unfold path_from_name, mbind, io_mbind, io_bind. rewrite Hread.
  unfold lift. rewrite for_return_passes_over; [done|].
  eapply Forall_impl; [exact Hpre|]. intros j [Hpath Hname]. simpl in *.
  rewrite path_from_name_block. unfold named_lookup. rewrite Hpath.
  destruct (j !! "Name") as [[n|what]|]; [by case_bool_decide| |done].
  by destruct (Hname what).
Qed.

(** C9.  The value of [-s/--separator] has no effect: two invocations that
    differ in it alone end the same way and leave the same world, standard
    output included.  [main] never reads the separator (list mode renders
    with [title_gen_only_name]; launch mode prints nothing). *)
Theorem separator_ignored fuel path separator1 separator2 profile environ w :
  main fuel (MkArgs path separator1 profile) environ w
  = main fuel (MkArgs path separator2 profile) environ w.
Proof. reflexivity. Qed.

End Profiles.



(** The whole script on the example: the profile named default is found,
    the prompt and the entry of Mail are printed, and the file system and
    the connections are left as they were. *)
Example main_lists_example :
  main (H:=example_platform) 5 (MkArgs "" " / " (Some "default")) ∅
    example_files
  = (Ok (),
     set_stdout
       (λ out, out ++ [prompt_line;
                       entry_line "Mail" (Some "http://mail.example")])
       example_files).
Proof. vm_compute. reflexivity. Qed.

(** * The parent index *)

Lemma make_by_id_snoc rows r :
  make_by_id (rows ++ [r])
  = <[row_id r := (row_title r, row_parent r)]> (make_by_id rows).
Proof. unfold make_by_id. by rewrite foldl_app. Qed.

(** X1.  The index maps an id to the title and parent of the last row of
    the table that has this id, and has no entry for an id that no row
    has. *)
Theorem make_by_id_last_row rows i :
  make_by_id rows !! i
  = (λ r, (row_title r, row_parent r))
      <$> last (filter (λ r, row_id r = i) rows).
Proof.
  induction rows as [|r rows IH] using rev_ind; [done|].
  rewrite make_by_id_snoc, filter_app.
  destruct (decide (row_id r = i)) as [<-|Hne].
  - rewrite lookup_insert_eq, filter_cons_True by done.
    rewrite filter_nil. by rewrite last_snoc.
  - rewrite lookup_insert_ne by done.
    rewrite filter_cons_False by done. rewrite filter_nil, app_nil_r. done.
Qed.

Lemma make_by_id_unique rows r :
  NoDup (map row_id rows) → r ∈ rows →
  make_by_id rows !! row_id r = Some (row_title r, row_parent r).
Proof.
  induction rows as [|r' rows IH] using rev_ind; [by intros _ ?%elem_of_nil|].
  rewrite map_app, make_by_id_snoc. simpl.
  intros [Hnd [Hnotin _]]%NoDup_app Hin.
  apply elem_of_app in Hin as [Hin|Hin%list_elem_of_singleton].
  - rewrite lookup_insert_ne; [by apply IH|].
    intros Heq. apply (Hnotin (row_id r)); [|rewrite Heq; by left].
    apply list_elem_of_fmap. by exists r.
  - subst r'. by rewrite lookup_insert_eq.
Qed.

(** * How a climb can end *)

Lemma parent_generator_Raise_dangles by_id fuel i e :
  parent_generator fuel i by_id = Raise e → e = KeyError ∧ dangles by_id i.
Proof.
  revert i. induction fuel as [|fuel IH]; intros i Hrun; simpl in Hrun;
    case_bool_decide as Hi; try done.
  destruct (by_id !! i) as [[title parent]|] eqn:Hlook.
  - destruct (parent_generator fuel parent by_id) as [rest|e'|] eqn:Hrest;
      simpl in Hrun; try done.
    injection Hrun as <-. destruct (IH _ Hrest) as [-> (j & Hreach & Hj)].
    split; [done|]. exists j. split; [|done].
    eapply rtc_l; [|done]. split; [done|]. by exists title.
  - injection Hrun as <-. split; [done|]. exists i. by split; [apply rtc_refl|].
Qed.

Lemma climbs_Ok by_id i ids :
  climbs by_id i ids →
  parent_generator (length ids) i by_id = Ok (map (title_at by_id) ids).
Proof. intros Hclimb. by apply parent_generator_climbs. Qed.

(** The visited-set argument behind the hop bound: while [visited] holds
    ids that all lead to [i], a climb from [i] that is out of fuel with more
    fuel than there are ids not yet visited has met a cycle. *)
Lemma out_of_fuel_cycle by_id fuel (visited : gset Z) i :
  visited ⊆ dom by_id →
  (∀ v, v ∈ visited → tc (hop by_id) v i) →
  size (dom by_id ∖ visited) < fuel →
  parent_generator fuel i by_id = OutOfFuel →
  runs_into_cycle by_id i.
Proof.
  revert visited i. induction fuel as [|fuel IH];
    intros visited i Hdom Hlead Hsize Hrun; [lia|].
  simpl in Hrun. case_bool_decide as Hi; [|done].
  destruct (by_id !! i) as [[title parent]|] eqn:Hlook; [|done].
  assert (hop by_id i parent) as Hhop by (split; [done | by exists title]).
  destruct (decide (i ∈ visited)) as [Hin|Hnotin].
  { exists i. split; [apply rtc_refl | by apply Hlead]. }
  destruct (parent_generator fuel parent by_id) as [rest|e|] eqn:Hrest;
    simpl in Hrun; try done.
  assert (i ∈ dom by_id) as Hidom by (apply elem_of_dom; eauto).
  destruct (IH ({[i]} ∪ visited) parent) as (j & Hreach & Hcycle).
  - apply union_subseteq. split; [by apply singleton_subseteq_l | done].
  - intros v [->%elem_of_singleton|Hv]%elem_of_union.
    + by apply tc_once.
    + eapply tc_r; [by apply Hlead | done].
  - assert (dom by_id ∖ ({[i]} ∪ visited) ⊂ dom by_id ∖ visited) as Hsub.
    { split.
      - intros x [Hx Hnot%not_elem_of_union]%elem_of_difference.
        apply elem_of_difference. by destruct Hnot.
      - intros Hback. assert (i ∈ dom by_id ∖ visited) as Hi'
          by (by apply elem_of_difference).
        apply Hback, elem_of_difference in Hi' as [_ Hnot].
        apply Hnot, elem_of_union. left. by apply elem_of_singleton. }
    apply subset_size in Hsub. lia.
  - done.
  - exists j. split; [by eapply rtc_l | done].
Qed.

Lemma hop_bound_cycle by_id i :
  parent_generator (hop_bound by_id) i by_id = OutOfFuel →
  runs_into_cycle by_id i.
Proof.
  apply (out_of_fuel_cycle by_id (hop_bound by_id) ∅).
  - apply empty_subseteq.
  - by intros v ?%elem_of_empty.
  - rewrite difference_empty_L, size_dom. unfold hop_bound. lia.
Qed.

Lemma climbs_reach by_id j ids x :
  climbs by_id j ids → x ∈ ids → rtc (hop by_id) j x.
Proof.
  induction 1 as [j Hj|j title parent ids Hj Hlook _ IH];
    [by intros ?%elem_of_nil|].
  intros [->|Hx]%elem_of_cons; [apply rtc_refl|].
  eapply rtc_l; [|by apply IH]. split; [done | by exists title].
Qed.

Lemma climbs_NoDup by_id i ids : climbs by_id i ids → NoDup ids.
Proof.
  induction 1 as [i Hi|i title parent ids Hi Hlook Hclimb IH];
    constructor; [|done].
  intros Hin.
  assert (tc (hop by_id) i i) as Hcycle.
  { eapply tc_rtc_r; [|by eapply climbs_reach].
    apply tc_once. split; [done | by exists title]. }
  apply cycle_diverges in Hcycle. specialize (Hcycle (S (length ids))).
  simpl in Hcycle. rewrite bool_decide_eq_true_2, Hlook in Hcycle by done.
  by rewrite (parent_generator_climbs _ _ _ Hclimb) in Hcycle.
Qed.

Lemma climbs_in_index by_id i ids :
  climbs by_id i ids → ∀ x, x ∈ ids → x ∈ dom by_id.
Proof.
  induction 1 as [i Hi|i title parent ids Hi Hlook _ IH];
    [by intros x ?%elem_of_nil|].
  intros x [->|Hx]%elem_of_cons; [|by apply IH].
  apply elem_of_dom. eauto.
Qed.

(** X2.  A climb ends in one of three ways, each decided by the shape of
    the chain.  It returns exactly when the chain reaches the root sentinel;
    it raises exactly when the chain reaches an id above the sentinel that
    no row has, and then the error is [KeyError] and nothing else; it never
    stops exactly when the chain runs into a cycle. *)
Theorem climb_outcomes by_id i :
  ((∃ fuel parents, parent_generator fuel i by_id = Ok parents) ↔
   ∃ ids, climbs by_id i ids) ∧
  ((∃ fuel e, parent_generator fuel i by_id = Raise e) ↔ dangles by_id i) ∧
  (∀ fuel e, parent_generator fuel i by_id = Raise e → e = KeyError) ∧
  (diverges (λ fuel, parent_generator fuel i by_id) ↔ runs_into_cycle by_id i).
Proof.
  split; [|split; [|split]].
  - split.
    + intros (fuel & parents & Hrun).
      destruct (parent_generator_Ok_climbs _ _ _ _ Hrun) as (ids & Hclimb & _).
      by exists ids.
    + intros [ids Hclimb]. eexists _, _. by apply climbs_Ok.
  - split.
    + intros (fuel & e & Hrun). by eapply parent_generator_Raise_dangles.
    + intros [fuel Hraise]%dangles_KeyError. exists fuel, KeyError.
      by apply Hraise.
  - intros fuel e Hrun. by eapply parent_generator_Raise_dangles.
  - split.
    + intros Hdiv. apply hop_bound_cycle, Hdiv.
    + apply runs_into_cycle_diverges.
Qed.

(** X3.  The hop bound is exact.  With one unit of fuel more than the index
    has ids, the climb is out of fuel only if the chain runs into a cycle,
    and then no amount of fuel is enough; whatever a climb returns or raises
    with any amount of fuel, it returns or raises within the bound; and a
    climb that returns yields at most as many titles as the index has
    ids. *)
Theorem hop_bound_exact by_id i :
  (parent_generator (hop_bound by_id) i by_id = OutOfFuel ↔
   runs_into_cycle by_id i) ∧
  (∀ fuel r, parent_generator fuel i by_id = r → r ≠ OutOfFuel →
     parent_generator (hop_bound by_id) i by_id = r) ∧
  (∀ fuel parents, parent_generator fuel i by_id = Ok parents →
     length parents ≤ size by_id).
Proof.
  split; [|split].
  - split; [apply hop_bound_cycle|].
    intros Hc%runs_into_cycle_diverges. apply Hc.
  - intros fuel r Hrun Hr.
    destruct (parent_generator (hop_bound by_id) i by_id) as [l|e|] eqn:Hb.
    + destruct (decide (fuel ≤ hop_bound by_id)).
      * by rewrite <- Hb; apply (parent_generator_mono _ fuel).
      * rewrite <- Hrun. symmetry.
        apply (parent_generator_mono _ (hop_bound by_id)); [done..|lia].
    + destruct (decide (fuel ≤ hop_bound by_id)).
      * by rewrite <- Hb; apply (parent_generator_mono _ fuel).
      * rewrite <- Hrun. symmetry.
        apply (parent_generator_mono _ (hop_bound by_id)); [done..|lia].
    + apply hop_bound_cycle, runs_into_cycle_diverges in Hb.
      specialize (Hb fuel). simpl in Hb. congruence.
  - intros fuel parents Hrun.
    destruct (parent_generator_Ok_climbs _ _ _ _ Hrun) as (ids & Hclimb & ->).
    rewrite length_map, <- size_dom.
    rewrite <- (size_list_to_set (C:=gset Z) ids)
      by (by eapply climbs_NoDup).
    apply subseteq_size. intros x Hx%elem_of_list_to_set.
    by eapply climbs_in_index.
Qed.

(** * What the loop prints *)

(** An iteration prints nothing, or it is the iteration of a bookmark-type
    row, returns, and prints one entry with the URL of the row. *)
Lemma iteration_effect fuel bookmarks title_gen search_path r w :
  (iteration fuel bookmarks title_gen search_path r w).2 = w ∨
  (row_type r = 1%Z ∧
   ∃ path,
     iteration fuel bookmarks title_gen search_path r w
     = (Ok (), set_stdout (λ out, out ++ [entry_line path (row_url r)]) w)).
Proof.
  unfold iteration, write_rofi_input_row. case_bool_decide as Ht; [by left|].
  unfold mbind, io_mbind, io_bind, lift.
  destruct (parent_generator _ _ _) as [parents| |]; [|by left..].
  destruct (all_names_match _ _) as [[[] rest]| |]; [|by left..].
  destruct (title_gen rest) as [path| |]; [|by left..].
  right. split; [|by exists path].
  destruct (decide (row_type r = 1%Z)); [done|]. by destruct Ht.
Qed.

(** The loop over any part of the table leaves the world as it was but for
    the entries it adds to standard output, which belong to bookmark-type
    rows of that part, at most one to a row, in the order of the rows. *)
Lemma for_each_iteration_effect fuel bookmarks title_gen search_path rows w :
  ∃ emitted : list (row * string),
    emitted.*1 `sublist_of` filter (λ r, row_type r = 1%Z) rows ∧
    (for_each (iteration fuel bookmarks title_gen search_path) rows w).2
    = set_stdout
        (λ out, out ++ map (λ e, entry_line e.2 (row_url e.1)) emitted) w.
Proof.
  revert w. induction rows as [|r rows IH]; intros w.
  { exists []. split; [done|]. simpl. by rewrite set_stdout_nil. }
  simpl for_each. unfold mbind, io_mbind, io_bind.
  destruct (iteration_effect fuel bookmarks title_gen search_path r w)
    as [Hsame|(Ht & path & Hrow)].
  - destruct (iteration fuel bookmarks title_gen search_path r w)
      as [[[]|e|] w1]; simpl in Hsame; subst w1.
    + destruct (IH w) as (emitted & Hsub & Hw). exists emitted.
      split; [|done]. destruct (decide (row_type r = 1%Z)).
      * rewrite filter_cons_True by done. by apply sublist_cons.
      * by rewrite filter_cons_False.
    + exists []. split; [apply sublist_nil_l|]. simpl.
      by rewrite set_stdout_nil.
    + exists []. split; [apply sublist_nil_l|]. simpl.
      by rewrite set_stdout_nil.
  - rewrite Hrow.
    destruct (IH (set_stdout (λ out, out ++ [entry_line path (row_url r)]) w))
      as (emitted & Hsub & Hw).
    exists ((r, path) :: emitted). split.
    + rewrite filter_cons_True by done. simpl. by apply sublist_skip.
    + rewrite Hw. by rewrite set_stdout_app.
Qed.

(** X4.  Whatever the table, the renderer, the filter and the way the run
    ends, [write_rofi_input] changes nothing but standard output, and what
    it adds there are entries of bookmark-type rows only, each with the
    URL of its row, at most one to a row and in the order of the table.
    A row of another type is never printed. *)
Theorem write_rofi_input_prints_bookmarks fuel bookmarks favicons_gen title_gen
    search_path w :
  ∃ emitted : list (row * string),
    emitted.*1 `sublist_of` filter (λ r, row_type r = 1%Z) bookmarks ∧
    (write_rofi_input fuel bookmarks favicons_gen title_gen search_path w).2
    = set_stdout
        (λ out, out ++ map (λ e, entry_line e.2 (row_url e.1)) emitted) w.
Proof. apply for_each_iteration_effect. Qed.

(** * Resolving the profile *)

Section Resolution.
Context `{Platform}.

(** A loop whose block, at each section, is decided by one lookup ends on
    the first section where there is one. *)
Lemma for_return_first (block : section → result (option Path))
    (decides : section → option lookup_outcome) l otherwise :
  (∀ i, block i = match decides i with
                  | None => Ok None
                  | Some (Interpolated p) => Ok (Some (joinpath firefox_dir p))
                  | Some (InterpolationError what) => Raise (LibraryError what)
                  end) →
  for_return block l (Raise (Exception otherwise))
  = resolved otherwise (head (omap decides l)).
Proof.
  intros Hblock. induction l as [|i l IH]; simpl; [done|].
  rewrite Hblock. by destruct (decides i) as [[p|what]|].
Qed.

(** X5.  [default_profile_path] is decided by the first section of
    [installs.ini] that has a [Default], the sections without one being
    passed over: it returns the Firefox directory joined with that
    [Default], or raises the interpolation error its lookup raises (a lone
    percent sign in the value, for instance), which
    [suppress(KeyError)] does not catch.  It raises its own exception when
    no section has a [Default], which includes the case that the file does
    not exist; an error of the parser is passed on.  It never changes the
    world. *)
Theorem default_profile_path_first_default w :
  default_profile_path w
  = (match files w !! joinpath firefox_dir "installs.ini" with
     | None =>
         Raise (Exception "could not find a default profile in installs.ini")
     | Some content =>
         match ini_values content with
         | inl e => Raise e
         | inr values =>
             resolved "could not find a default profile in installs.ini"
               (head (omap (λ i : section, i !! "Default") values))
         end
     end, w).
Proof.
  unfold default_profile_path, mbind, io_mbind, io_bind,
    ConfigParser_read_values, lift.
  destruct (files w !! joinpath firefox_dir "installs.ini") as [content|];
    [|done].
  destruct (ini_values content) as [e|values]; [done|].
  f_equal. apply for_return_first. intros i. unfold item.
  by destruct (i !! "Default") as [[d|what]|].
Qed.

(** X6.  [path_from_name] is decided by the first section of
    [profiles.ini] at which a lookup decides: a section whose [Name]
    cannot be looked up for an interpolation error, or a section with the
    requested [Name] and a [Path].  Sections with no [Name], with another
    [Name], or with the requested [Name] and no [Path] are passed over.  At
    the deciding section it raises the interpolation error of the [Name]
    or of the [Path], which [suppress(KeyError)] does not catch, or returns
    the Firefox directory joined with the [Path].  It raises its own
    exception when no section decides, which includes the case that the
    file does not exist; an error of the parser is passed on.  It never
    changes the world. *)
Theorem path_from_name_first_named_path name w :
  path_from_name name w
  = (match files w !! joinpath firefox_dir "profiles.ini" with
     | None => Raise (Exception "no profile with this name")
     | Some content =>
         match ini_values content with
         | inl e => Raise e
         | inr values =>
             resolved "no profile with this name"
               (head (omap (named_lookup name) values))
         end
     end, w).
Proof.
  unfold path_from_name, mbind, io_mbind, io_bind,
    ConfigParser_read_values, lift.
  destruct (files w !! joinpath firefox_dir "profiles.ini") as [content|].
  - destruct (ini_values content) as [e|values]; [done|].
    f_equal. apply for_return_first. intros i. apply path_from_name_block.
  - reflexivity.
Qed.

End Resolution.

(** On the files with the percent signs both functions raise the error of
    the interpolation: [default_profile_path] at the only install section,
    [path_from_name], asked for a name no section has, at the section named
    50%off. *)
Example resolution_interpolation_errors :
  default_profile_path (H:=percent_platform) percent_files
  = (Raise (LibraryError "InterpolationSyntaxError"), percent_files) ∧
  path_from_name (H:=percent_platform) "other" percent_files
  = (Raise (LibraryError "InterpolationSyntaxError"), percent_files).
Proof. split; by vm_compute. Qed.

(** * Reading the database and the whole run *)

(** [temp_sqlite] on a source that exists: the body runs on a connection to
    the copy, and the connection and the copy are released unless the body
    does not return. *)
Lemma temp_sqlite_copies {R} path (body : conn → io R) w content :
  files w !! path = Some content →
  temp_sqlite path R body w
  = let tmp := tempfile_name w in
    let h := connection_handle w in
    match body h (set_conns (insert h tmp) (set_files (insert tmp content) w))
    with
    | (OutOfFuel, w') => (OutOfFuel, w')
    | (r, w') => (r, set_files (delete tmp) (set_conns (delete h) w'))
    end.
Proof.
  intros Hpath. pose proof (tempfile_name_fresh w) as Htmp.
  assert (path ≠ tempfile_name w) as Hne by congruence.
  unfold temp_sqlite, with_, NamedTemporaryFile_enter,
    NamedTemporaryFile_exit, copyfile, sqlite3_connect, close,
    mbind, io_mbind, io_bind.
  simpl. rewrite lookup_insert_ne, Hpath, bool_decide_eq_false_2 by done.
  simpl. unfold connection_handle at 1. simpl. fold (connection_handle w).
  replace (set_conns (insert (connection_handle w) (tempfile_name w))
             (set_files (insert (tempfile_name w) content)
                (set_files (insert (tempfile_name w) EmptyString) w)))
    with (set_conns (insert (connection_handle w) (tempfile_name w))
            (set_files (insert (tempfile_name w) content) w)).
  - by destruct (body _ _) as [[] ?].
  - unfold set_conns, set_files. simpl. by rewrite insert_insert_eq.
Qed.

Lemma temp_sqlite_no_source {R} path (body : conn → io R) w :
  files w !! path = None →
  ∃ e, temp_sqlite path R body w = (Raise e, w).
Proof.
  intros Hpath. pose proof (tempfile_name_fresh w) as Htmp.
  assert (set_files (delete (tempfile_name w))
            (set_files (insert (tempfile_name w) EmptyString) w) = w)
    as Hrestore.
  { destruct w as [fs cs out ps]. unfold set_files. simpl in *.
    by rewrite delete_insert_eq, delete_id. }
  unfold temp_sqlite, with_, NamedTemporaryFile_enter,
    NamedTemporaryFile_exit, copyfile, mbind, io_mbind, io_bind.
  simpl. destruct (decide (path = tempfile_name w)) as [->|Hne].
  - rewrite lookup_insert_eq, bool_decide_eq_true_2 by done.
    rewrite Hrestore. by eexists.
  - rewrite lookup_insert_ne, Hpath by done. rewrite Hrestore. by eexists.
Qed.

(** Closing the connection and removing the copy undo opening them. *)
Lemma snapshot_released w content :
  let tmp := tempfile_name w in
  let h := connection_handle w in
  set_files (delete tmp)
    (set_conns (delete h)
       (set_conns (insert h tmp) (set_files (insert tmp content) w)))
  = w.
Proof.
  intros tmp h. pose proof (tempfile_name_fresh w) as Htmp.
  pose proof (connection_handle_fresh w) as Hh. fold tmp in Htmp. fold h in Hh.
  destruct w as [fs cs out ps]. unfold set_files, set_conns. simpl in *.
  by rewrite !delete_insert_eq, !delete_id.
Qed.

Section Run.
Context `{Platform}.

(** X7.  [get_bookmarks_from_db] returns the rows the query gives on the
    content of [places.sqlite] in the profile directory, or passes on the
    error of the query, and in both cases leaves the world as it found it:
    the database is not changed, and neither the temporary copy nor the
    connection outlives the call.  When the database does not exist it
    raises, again leaving the world as it was. *)
Theorem get_bookmarks_from_db_snapshot profile_loc w :
  match files w !! joinpath profile_loc "places.sqlite" with
  | Some content =>
      get_bookmarks_from_db profile_loc w
      = (match select_bookmarks content with
         | inl e => Raise e
         | inr rows => Ok rows
         end, w)
  | None => ∃ e, get_bookmarks_from_db profile_loc w = (Raise e, w)
  end.
Proof.
  unfold get_bookmarks_from_db.
  destruct (files w !! joinpath profile_loc "places.sqlite")
    as [content|] eqn:Hdb; [|by apply temp_sqlite_no_source].
  rewrite (temp_sqlite_copies _ _ _ _ Hdb). simpl.
  unfold execute_fetchall. simpl. rewrite !lookup_insert_eq.
  destruct (select_bookmarks content); f_equal; apply snapshot_released.
Qed.

Lemma get_bookmarks_from_db_world profile_loc w :
  get_bookmarks_from_db profile_loc w
  = ((get_bookmarks_from_db profile_loc w).1, w).
Proof.
  unfold get_bookmarks_from_db.
  destruct (files w !! joinpath profile_loc "places.sqlite")
    as [content|] eqn:Hdb.
  - rewrite (temp_sqlite_copies _ _ _ _ Hdb). simpl.
    unfold execute_fetchall. simpl. rewrite !lookup_insert_eq.
    destruct (select_bookmarks content); f_equal; apply snapshot_released.
  - by destruct (temp_sqlite_no_source _ execute_fetchall _ Hdb) as [e ->].
Qed.

Lemma get_bookmarks_from_db_returns profile_loc w :
  (get_bookmarks_from_db profile_loc w).1 ≠ OutOfFuel.
Proof.
  unfold get_bookmarks_from_db.
  destruct (files w !! joinpath profile_loc "places.sqlite")
    as [content|] eqn:Hdb.
  - rewrite (temp_sqlite_copies _ _ _ _ Hdb). simpl.
    unfold execute_fetchall. simpl. rewrite !lookup_insert_eq.
    by destruct (select_bookmarks content).
  - by destruct (temp_sqlite_no_source _ execute_fetchall _ Hdb) as [e ->].
Qed.

Lemma profile_of_args_world args w :
  profile_of_args args w = ((profile_of_args args w).1, w).
Proof.
  unfold profile_of_args, default_profile_path, path_from_name,
    mbind, io_mbind, io_bind, ConfigParser_read_values, lift.
  destruct (args_profile args);
    (destruct (files w !! _); [destruct (ini_values _)|]; done).
Qed.

(** X8.  In list mode [main] is the composition of its parts, and only the
    last of them changes the world.  If the profile cannot be resolved, the
    error ends the run with nothing printed.  Otherwise the prompt line is
    printed first; if the bookmarks cannot be read, that error ends the run
    with the prompt printed; otherwise the entries are written for the rows
    read, with final-segment rendering and with the non-empty pieces of the
    positional argument between slashes as the filter. *)
Theorem main_list_mode fuel args environ w :
  environ !! "ROFI_RETV" ≠ Some "1" →
  main fuel args environ w
  = match (profile_of_args args w).1 with
    | Ok profile_path =>
        let w1 := set_stdout (λ out, out ++ [prompt_line]) w in
        match (get_bookmarks_from_db profile_path w1).1 with
        | Ok bookmarks =>
            write_rofi_input fuel bookmarks (favicons_generator profile_path)
              title_gen_only_name (search_path_of (args_path args)) w1
        | Raise e => (Raise e, w1)
        | OutOfFuel => (OutOfFuel, w1)
        end
    | Raise e => (Raise e, w)
    | OutOfFuel => (OutOfFuel, w)
    end.
Proof.
  intros Hmode. unfold main. rewrite bool_decide_eq_false_2 by done.
  change (match args_profile args with
          | Some p => path_from_name p
          | None => default_profile_path
          end) with (profile_of_args args).
  unfold mbind, io_mbind at 1, io_bind at 1.
  rewrite (profile_of_args_world args w).
  destruct (profile_of_args args w).1 as [profile_path|e|]; simpl; [|done..].
  unfold io_mbind at 1, io_bind at 1. unfold print at 1.
  unfold io_mbind at 1, io_bind at 1.
  rewrite (get_bookmarks_from_db_world profile_path).
  by destruct (get_bookmarks_from_db profile_path _).1.
Qed.

(** X9.  [main] leaves no trace but its output.  In both modes the file
    system and the open connections are, at the end, what they were at the
    start, however the run ends.  In list mode no process is started and
    standard output only grows; in launch mode nothing is printed and at
    most one process is started. *)
Theorem main_leaves_no_trace fuel args environ w :
  let w' := (main fuel args environ w).2 in
  files w' = files w ∧
  conns w' = conns w ∧
  (environ !! "ROFI_RETV" ≠ Some "1" →
   spawned w' = spawned w ∧ ∃ lines, stdout w' = stdout w ++ lines) ∧
  (environ !! "ROFI_RETV" = Some "1" →
   stdout w' = stdout w ∧
   ∃ started, spawned w' = spawned w ++ started ∧ length started ≤ 1).
Proof.
  intros w'. subst w'.
  destruct (decide (environ !! "ROFI_RETV" = Some "1")) as [Hmode|Hmode].
  - assert (∃ started,
              (main fuel args environ w).2
              = set_spawned (λ ps, ps ++ started) w ∧ length started ≤ 1)
      as (started & -> & Hlen).
    { unfold main. rewrite bool_decide_eq_true_2 by done.
      unfold mbind, io_mbind, io_bind, lift, environ_item, Popen.
      destruct (environ !! "ROFI_INFO") as [info|].
      - eexists [_]. split; [reflexivity | simpl; lia].
      - exists []. split; [|simpl; lia]. destruct w. unfold set_spawned.
        simpl. by rewrite app_nil_r. }
    split; [done|]. split; [done|]. split; [done|].
    intros _. split; [done|]. by exists started.
  - assert (∃ lines,
              (main fuel args environ w).2
              = set_stdout (λ out, out ++ lines) w) as [lines ->].
    { unfold main. rewrite bool_decide_eq_false_2 by done.
      change (match args_profile args with
              | Some p => path_from_name p
              | None => default_profile_path
              end) with (profile_of_args args).
      unfold mbind, io_mbind at 1, io_bind at 1.
      rewrite (profile_of_args_world args w).
      destruct (profile_of_args args w).1 as [profile_path|e|];
        [|exists []; by rewrite set_stdout_nil..].
      simpl. unfold io_mbind at 1, io_bind at 1. unfold print at 1.
      unfold io_mbind at 1, io_bind at 1.
      rewrite (get_bookmarks_from_db_world profile_path).
      destruct (get_bookmarks_from_db profile_path _).1 as [bookmarks|e|];
        [|by exists [prompt_line]..].
      destruct (for_each_iteration_effect fuel bookmarks title_gen_only_name
                  (search_path_of (args_path args)) bookmarks
                  (set_stdout (λ out, out ++ [prompt_line]) w))
        as (emitted & _ & Hw).
      exists ([prompt_line]
              ++ map (λ e, entry_line e.2 (row_url e.1)) emitted).
      rewrite <- set_stdout_app. exact Hw. }
    split; [done|]. split; [done|]. split; [|done].
    intros _. split; [done|]. by exists lines.
Qed.

End Run.

Lemma main_list_mode_witness :
  (∅ : gmap string string) !! "ROFI_RETV" ≠ Some "1" ∧
  main (H:=example_platform) 5 (MkArgs "/Work/" " / " (Some "default")) ∅
    example_files
  = (Ok (),
     set_stdout
       (λ out, out ++ [prompt_line;
                       entry_line "Mail" (Some "http://mail.example")])
       example_files).
Proof.
  assert ((∅ : gmap string string) !! "ROFI_RETV" ≠ Some "1") as Hmode.
  { intros Hretv. vm_compute in Hretv. discriminate. }
  split; [exact Hmode|].
  rewrite (main_list_mode (H:=example_platform) 5
             (MkArgs "/Work/" " / " (Some "default")) ∅ example_files Hmode).
  vm_compute. reflexivity.
Defined.

(** * The filter from the command line *)

Lemma slash_free_cons a s :
  slash_free (String a s) ↔ a ≠ "/"%char ∧ slash_free s.
Proof.
  unfold slash_free. simpl. split.
  - intros Hno. split; [intros ->; apply Hno; by left|].
    intros Hin. apply Hno. by right.
  - intros [Ha Hs] [Heq|Hin]; [by apply Ha | by apply Hs].
Qed.

Lemma split_nonempty s : split "/" s ≠ [].
Proof.
  destruct s as [|a s]; simpl; [done|].
  destruct (Ascii.eqb a "/"); [done|]. by destruct (split "/" s).
Qed.

Lemma split_slash_free s : Forall slash_free (split "/" s).
Proof.
  induction s as [|a s IH]; simpl.
  - constructor; [|done]. by intros [].
  - destruct (Ascii.eqb a "/") eqn:Ha.
    + constructor; [by intros [] | done].
    + apply Ascii.eqb_neq in Ha.
      destruct (split "/" s) as [|piece pieces].
      * constructor; [|done]. apply slash_free_cons. split; [done|].
        by intros [].
      * apply Forall_cons in IH as [Hpiece Hpieces].
        constructor; [|done]. by apply slash_free_cons.
Qed.

Lemma split_app s1 s2 :
  split "/" (s1 +:+ "/" +:+ s2) = split "/" s1 ++ split "/" s2.
Proof.
  induction s1 as [|a s1 IH]; [done|]. simpl.
  destruct (Ascii.eqb a "/"); [by rewrite IH|].
  change (split "/" (s1 +:+ String "/" s2))
    with (split "/" (s1 +:+ "/" +:+ s2)).
  rewrite IH. destruct (split "/" s1) as [|piece pieces] eqn:Hs1; [|done].
  by apply split_nonempty in Hs1.
Qed.

Lemma split_whole s : slash_free s → split "/" s = [s].
Proof.
  induction s as [|a s IH]; intros Hs; [done|].
  apply slash_free_cons in Hs as [Ha Hs]. simpl.
  rewrite (proj2 (Ascii.eqb_neq a "/") Ha). by rewrite (IH Hs).
Qed.

(** X10.  Every segment of the filter [main] derives from the positional
    argument is non-empty and holds no slash, and the filter of two
    arguments joined by a slash is the filter of the first followed by the
    filter of the second.  So the empty argument gives the empty filter,
    and leading, trailing and doubled slashes change nothing. *)
Theorem search_path_of_segments path path' :
  Forall (λ s, s ≠ EmptyString ∧ slash_free s) (search_path_of path) ∧
  search_path_of (path +:+ "/" +:+ path')
  = search_path_of path ++ search_path_of path' ∧
  search_path_of EmptyString = [] ∧
  search_path_of ("/" +:+ path) = search_path_of path ∧
  search_path_of (path +:+ "/") = search_path_of path.
Proof.
  assert (Happ : ∀ p p',
            search_path_of (p +:+ "/" +:+ p')
            = search_path_of p ++ search_path_of p').
  { intros p p'. unfold search_path_of. by rewrite split_app, filter_app. }
  split; [|split; [|split; [|split]]].
  - unfold search_path_of. apply Forall_forall.
    intros s [Hs Hin]%list_elem_of_filter. split; [done|].
    by eapply Forall_forall; [apply split_slash_free|].
  - apply Happ.
  - done.
  - done.
  - change (path +:+ "/") with (path +:+ "/" +:+ EmptyString).
    rewrite Happ. change (search_path_of EmptyString) with (@nil string).
    by rewrite app_nil_r.
Qed.

(** X11.  Splitting undoes joining: a list of segments, each non-empty and
    without a slash, joined with slashes and given as the positional
    argument, is the filter [main] derives. *)
Theorem search_path_of_join segments :
  Forall (λ s, s ≠ EmptyString ∧ slash_free s) segments →
  search_path_of (String.concat "/" segments) = segments.
Proof.
  induction 1 as [|s segments [Hs Hfree] Hrest IH]; [done|].
  destruct segments as [|s' segments].
  - simpl. unfold search_path_of. rewrite split_whole by done.
    by rewrite filter_cons_True, filter_nil.
  - change (String.concat "/" (s :: s' :: segments))
      with (s +:+ "/" +:+ String.concat "/" (s' :: segments)).
    unfold search_path_of in *. rewrite split_app, filter_app, IH.
    rewrite split_whole by done. by rewrite filter_cons_True, filter_nil.
Qed.

Lemma search_path_of_join_witness :
  Forall (λ s, s ≠ EmptyString ∧ slash_free s) ["Work"; "Mail"] ∧
  search_path_of (String.concat "/" ["Work"; "Mail"]) = ["Work"; "Mail"].
Proof.
  assert (Forall (λ s, s ≠ EmptyString ∧ slash_free s) ["Work"; "Mail"])
    as Hsegments.
  { repeat constructor; try discriminate;
      unfold slash_free; simpl; intros Hin;
      repeat (destruct Hin as [Hin|Hin]; [discriminate|]); exact Hin. }
  split; [exact Hsegments|]. exact (search_path_of_join _ Hsegments).
Defined.

(** * The renderers *)

Lemma not_none_app path path' :
  not_none (path ++ path') = not_none path ++ not_none path'.
Proof. apply omap_app. Qed.

Lemma not_none_all_None path :
  not_none path = [] ↔ Forall (λ x, x = None) path.
Proof.
  induction path as [|[t|] path IH]; simpl.
  - split; [constructor | done].
  - split; [done | by intros [? _]%Forall_cons].
  - rewrite IH. split; [by constructor | by intros [_ ?]%Forall_cons].
Qed.

(** X12.  [title_gen_only_name] returns the last title of the path that is
    not [None], whatever [None]s follow it, and raises [IndexError] exactly
    when the path holds no title at all (the empty path included). *)
Theorem title_gen_only_name_last_title path :
  (title_gen_only_name path = Raise IndexError ↔
   Forall (λ x, x = None) path) ∧
  (∀ t, title_gen_only_name path = Ok t ↔
        ∃ before after,
          path = before ++ Some t :: after ∧ Forall (λ x, x = None) after).
Proof.
  split.
  - rewrite <- not_none_all_None. unfold title_gen_only_name.
    destruct (not_none path) as [|t l] using rev_ind; [done|].
    rewrite last_snoc. split; [done|]. intros Hnil. by destruct l.
  - intros t. unfold title_gen_only_name. split.
    + induction path as [|x path IH] using rev_ind; [done|].
      rewrite not_none_app. destruct x as [t'|]; simpl.
      * rewrite last_snoc. intros [= ->]. by exists path, [].
      * rewrite app_nil_r. intros (before & after & -> & Hafter)%IH.
        exists before, (after ++ [None]). rewrite <- app_assoc. split; [done|].
        apply Forall_app. by split; [|constructor].
    + intros (before & after & -> & Hafter%not_none_all_None).
      rewrite not_none_app. simpl. rewrite Hafter.
      by rewrite last_snoc.
Qed.

(** X13.  Shortening the filter keeps every entry.  If the iteration of a
    row prints an entry under a filter, under final-segment rendering, it
    prints the same entry under every prefix of that filter, the empty
    filter included. *)
Theorem shorter_filter_keeps_entry fuel bookmarks search_path more r w line :
  prints (iteration fuel bookmarks title_gen_only_name (search_path ++ more) r)
    w [line] →
  prints (iteration fuel bookmarks title_gen_only_name search_path r) w [line].
Proof.
  unfold prints. intros Hlong.
  assert (∀ l, stdout w ≠ stdout w ++ [l]) as Hgrow.
  { intros l Heq. apply (f_equal length) in Heq.
    rewrite length_app in Heq. simpl in Heq. lia. }
  destruct (decide (row_type r = 1%Z)) as [Ht|Ht];
    [|rewrite iteration_not_bookmark in Hlong by done;
      by apply Hgrow in Hlong].
  destruct (parent_generator fuel (row_id r) (make_by_id bookmarks))
    as [parents|e|] eqn:Hclimb;
    [|rewrite (iteration_climb_raises _ _ _ _ _ _ _ Ht Hclimb) in Hlong;
      by apply Hgrow in Hlong
     |rewrite (iteration_climb_diverges _ _ _ _ _ _ Ht Hclimb) in Hlong;
      by apply Hgrow in Hlong].
  rewrite (iteration_bookmark _ _ _ _ _ _ _ Ht Hclimb) in Hlong.
  rewrite (iteration_bookmark _ _ _ _ _ _ _ Ht Hclimb).
  pose proof (all_names_match_spec (search_path ++ more) (rev parents))
    as Hspec.
  destruct (all_names_match (search_path ++ more) (rev parents))
    as [[[] rest]|e|]; [|by apply Hgrow in Hlong..].
  destruct Hspec as [Hm%filter_matches_prefix Hrest].
  rewrite <- Hrest in Hm.
  destruct (title_gen_only_name rest) as [t| |] eqn:Ht';
    [|by apply Hgrow in Hlong..].
  pose proof (all_names_match_spec search_path (rev parents)) as Hspec'.
  assert (filter_matches search_path (rev parents)) as Hm'.
  { apply filter_matches_prefix. rewrite Hm at 1.
    rewrite map_app, <- app_assoc. f_equal.
    rewrite Hm at 1. rewrite map_app, <- app_assoc.
    by rewrite drop_app_length' by (by rewrite length_map). }
  destruct (all_names_match search_path (rev parents)) as [[[] rest']|e|].
  - destruct Hspec' as [_ ->].
    replace (drop (length search_path) (rev parents))
      with (map Some more ++ rest).
    + replace (title_gen_only_name (map Some more ++ rest)) with (@Ok string t);
        [done|].
      revert Ht'. unfold title_gen_only_name. rewrite not_none_app.
      destruct (not_none rest) as [|t0 l] using rev_ind; [done|].
      rewrite app_assoc, !last_snoc. done.
    + rewrite Hm at 1. rewrite map_app, <- app_assoc.
      by rewrite drop_app_length' by (by rewrite length_map).
  - done.
  - destruct Hspec' as [_ Hlen]. apply filter_matches_length in Hm'. lia.
  - done.
Qed.

Lemma shorter_filter_keeps_entry_witness :
  let r := Row 3 2 1 (Some "Mail") (Some "http://mail.example") in
  let line := entry_line "Mail" (Some "http://mail.example") in
  prints (iteration 2 example_rows title_gen_only_name ([] ++ ["Work"]) r)
    empty_world [line] ∧
  prints (iteration 2 example_rows title_gen_only_name [] r)
    empty_world [line].
Proof.
  assert (prints (iteration 2 example_rows title_gen_only_name
                    ([] ++ ["Work"])
                    (Row 3 2 1 (Some "Mail") (Some "http://mail.example")))
            empty_world [entry_line "Mail" (Some "http://mail.example")])
    as Hlong by (vm_compute; reflexivity).
  split; [exact Hlong|].
  exact (shorter_filter_keeps_entry 2 example_rows [] ["Work"] _ _ _ Hlong).
Defined.

(** * Listings without a filter *)

Lemma parent_generator_own_title by_id fuel i title parent parents :
  (1 < i)%Z → by_id !! i = Some (title, parent) →
  parent_generator fuel i by_id = Ok parents →
  ∃ rest, parents = title :: rest.
Proof.
  intros Hi Hlook. destruct fuel as [|fuel]; simpl;
    rewrite bool_decide_eq_true_2 by done; [done|].
  rewrite Hlook. destruct (parent_generator fuel parent by_id) as [rest| |];
    simpl; [|done..].
  intros [= <-]. by exists rest.
Qed.

Lemma flat_map_singletons {A B} (f : A → list B) (g : A → B) l :
  (∀ x, x ∈ l → f x = [g x]) → flat_map f l = map g l.
Proof.
  induction l as [|x l IH]; intros Hf; simpl; [done|].
  rewrite Hf by (by left). simpl. f_equal. apply IH.
  intros y Hy. apply Hf. by right.
Qed.

(** X14.  Without a filter and under final-segment rendering, a table whose
    ids are distinct and whose bookmark-type rows all have an id above the
    sentinel, a title and a chain that reaches the sentinel is listed
    completely: the run returns and prints, for each bookmark-type row in
    the order of the table, one entry with the row's own title and URL, and
    nothing else. *)
Theorem unfiltered_listing_own_titles fuel bookmarks favicons_gen w :
  NoDup (map row_id bookmarks) →
  (∀ r, r ∈ bookmarks → row_type r = 1%Z →
     (1 < row_id r)%Z ∧ is_Some (row_title r) ∧
     ∃ parents,
       parent_generator fuel (row_id r) (make_by_id bookmarks) = Ok parents) →
  write_rofi_input fuel bookmarks favicons_gen title_gen_only_name [] w
  = (Ok (),
     set_stdout
       (λ out, out ++ map (λ r, entry_line (default EmptyString (row_title r))
                                  (row_url r))
                        (filter (λ r, row_type r = 1%Z) bookmarks)) w).
Proof.
  intros Hnodup Hrows.
  assert (Hentry : ∀ r, r ∈ bookmarks → row_type r = 1%Z →
            ∃ parents,
              parent_generator fuel (row_id r) (make_by_id bookmarks)
              = Ok parents ∧
              title_gen_only_name (rev parents)
              = Ok (default EmptyString (row_title r))).
  { intros r Hin Ht. destruct (Hrows r Hin Ht) as (Hid & [t Htitle] & parents & Hclimb).
    exists parents. split; [done|].
    destruct (parent_generator_own_title _ _ _ _ _ _ Hid
                (make_by_id_unique _ _ Hnodup Hin) Hclimb) as [rest ->].
    rewrite Htitle. simpl rev. simpl default. unfold title_gen_only_name.
    rewrite not_none_app. change (not_none [Some t]) with [t].
    by rewrite last_snoc. }
  destruct (unfiltered_listing fuel bookmarks favicons_gen title_gen_only_name w)
    as [-> _].
  { intros r Hin Ht. destruct (Hentry r Hin Ht) as (parents & ? & ?).
    by exists parents, (default EmptyString (row_title r)). }
  do 2 f_equal. apply (f_equal (λ l out, out ++ l)).
  apply flat_map_singletons.
  intros r [Ht Hin]%list_elem_of_filter.
  destruct (Hentry r Hin Ht) as (parents & Hclimb & Htitle).
  unfold unfiltered_entry. by rewrite Hclimb, Htitle.
Qed.

Lemma unfiltered_listing_own_titles_witness :
  NoDup (map row_id example_rows) ∧
  write_rofi_input 2 example_rows unused_favicons title_gen_only_name []
    empty_world
  = (Ok (),
     set_stdout
       (λ out, out ++ [entry_line "Mail" (Some "http://mail.example")])
       empty_world).
Proof.
  assert (NoDup (map row_id example_rows)) as Hnodup.
  { simpl. repeat constructor; simpl; intros Hin;
      repeat (apply elem_of_cons in Hin as [Hin|Hin]; [discriminate|]);
      by apply elem_of_nil in Hin. }
  split; [exact Hnodup|].
  refine (unfiltered_listing_own_titles 2 example_rows unused_favicons
            empty_world Hnodup _).
  intros r Hin Ht.
  repeat (apply elem_of_cons in Hin as [->|Hin]; [try discriminate Ht|]).
  - split; [reflexivity|]. split; [eexists; reflexivity|].
    eexists. vm_compute. reflexivity.
  - by apply elem_of_nil in Hin.
Defined.

(** X15.  Full-path rendering never raises.  Without a filter, for any
    separator, a table whose bookmark-type rows all have a chain that
    reaches the sentinel is listed completely: the run returns and prints,
    for each bookmark-type row in the order of the table, one entry whose
    title is the titles on the row's path joined by the separator. *)
Theorem unfiltered_listing_full_path fuel bookmarks favicons_gen separator w :
  (∀ r, r ∈ bookmarks → row_type r = 1%Z →
     ∃ parents,
       parent_generator fuel (row_id r) (make_by_id bookmarks) = Ok parents) →
  write_rofi_input fuel bookmarks favicons_gen (title_gen_full_path separator)
    [] w
  = (Ok (),
     set_stdout
       (λ out, out ++ map (λ r, entry_line (full_title fuel bookmarks separator r)
                                  (row_url r))
                        (filter (λ r, row_type r = 1%Z) bookmarks)) w).
Proof.
  intros Hrows.
  destruct (unfiltered_listing fuel bookmarks favicons_gen
              (title_gen_full_path separator) w) as [-> _].
  { intros r Hin Ht. destruct (Hrows r Hin Ht) as [parents Hclimb].
    by eexists parents, _. }
  do 2 f_equal. apply (f_equal (λ l out, out ++ l)).
  apply flat_map_singletons.
  intros r [Ht Hin]%list_elem_of_filter.
  destruct (Hrows r Hin Ht) as [parents Hclimb].
  unfold unfiltered_entry, full_title. by rewrite Hclimb.
Qed.

Lemma unfiltered_listing_full_path_witness :
  write_rofi_input 2 example_rows unused_favicons (title_gen_full_path " > ")
    [] empty_world
  = (Ok (),
     set_stdout
       (λ out, out ++ [entry_line "Work > Mail" (Some "http://mail.example")])
       empty_world).
Proof.
  refine (unfiltered_listing_full_path 2 example_rows unused_favicons " > "
            empty_world _).
  intros r Hin Ht.
  repeat (apply elem_of_cons in Hin as [->|Hin]; [try discriminate Ht|]).
  - eexists. vm_compute. reflexivity.
  - by apply elem_of_nil in Hin.
Defined.

(** * The entry line *)

(** X16.  An entry can be read back.  When the rendered titles hold no NUL
    byte, two entries that are the same text have the same title and the
    same URL text: the first NUL of the line ends the title, and what
    follows [info] and the unit separator is the URL. *)
Theorem entry_line_injective path path' url url' :
  nul_free path → nul_free path' →
  entry_line path url = entry_line path' url' →
  path = path' ∧ str_of url = str_of url'.
Proof.
  unfold entry_line, nul_free. revert path'.
  induction path as [|a path IH]; intros [|a' path'] Hnul Hnul' Heq;
    simpl in *.
  - injection Heq as Heq. done.
  - injection Heq as <- _. destruct Hnul'. by left.
  - injection Heq as -> _. destruct Hnul. by left.
  - injection Heq as -> Heq.
    destruct (IH path') as [-> Hurl]; [tauto..|done|done].
Qed.

Lemma entry_line_injective_witness :
  nul_free "Mail" ∧
  entry_line "Mail" (Some "http://mail.example")
  = entry_line "Mail" (Some "http://mail.example") ∧
  str_of (Some "http://mail.example") = str_of (Some "http://mail.example").
Proof.
  assert (nul_free "Mail") as Hnul.
  { unfold nul_free. simpl. intros Hin.
    repeat (destruct Hin as [Hin|Hin]; [discriminate|]). exact Hin. }
  split; [exact Hnul|]. split; [reflexivity|].
  exact (proj2 (entry_line_injective "Mail" "Mail"
                  (Some "http://mail.example") (Some "http://mail.example")
                  Hnul Hnul eq_refl)).
Defined.
